(** * Vote trackers of the Plenum three-phase commit protocol

    A shallow embedding of [plenum/server/models.py]: the dictionary
    subclass [TrackedMsgs] and its three specialisations [Prepares],
    [Commits] and [InstanceChanges], with the properties of their
    vote-counting operations. *)

From stdpp Require Import gmap strings list fin_maps relations.
From Stdlib Require Import ZArith.
From Stdlib Require Import Floats.PrimFloat.

Local Open Scope Z_scope.
Set Warnings "-clear-no-such-hyp,-register-all".


(** ** Python outcomes *)

(** The exceptions the modelled code can raise. *)
Inductive exn : Type :=
  | AttributeError
  | KeyError
  | NotImplementedError.

(** A call either returns a value or raises. *)
Inductive result (A : Type) : Type :=
  | Ok (a : A)
  | Raise (e : exn).
Arguments Ok {A} a.
Arguments Raise {A} e.

(** ** A state-and-exception monad

    Methods mutate [self] and may raise; a raised exception keeps the
    mutations made before it. *)
Definition M (S A : Type) : Type := S → result A * S.

Definition ret {S A} (a : A) : M S A := λ s, (Ok a, s).

Definition raise {S A} (e : exn) : M S A := λ s, (Raise e, s).

Definition bind {S A B} (c : M S A) (k : A → M S B) : M S B :=
  λ s, match c s with
       | (Ok a, s') => k a s'
       | (Raise e, s') => (Raise e, s')
       end.

Definition lift {S A} (r : result A) : M S A := λ s, (r, s).

Notation "'do' x <- c ; k" := (bind c (λ x, k))
  (at level 10, x name, c at level 100, k at level 200,
   format "'[v' 'do'  x  <-  c ; '/' k ']'").

(** The outcome and the final state of a run. *)
Definition outcome {S A} (p : result A * S) : result A := p.1.
Definition final {S A} (p : result A * S) : S := p.2.
Arguments outcome {S A} !p /.
Arguments final {S A} !p /.

(** [c] run [n] times in a row, stopping at the first exception. *)
Fixpoint times {S} (n : nat) (c : M S unit) : M S unit :=
  match n with
  | O => ret tt
  | S n' => do _ <- c; times n' c
  end.

(** [f] called on every element of a list, left to right. *)
Fixpoint for_each {S A} (f : A → M S unit) (l : list A) : M S unit :=
  match l with
  | [] => ret tt
  | a :: l' => do _ <- f a; for_each f l'
  end.

(** ** The operations of [dict] that the code uses *)
Section dict.
Context {K : Type} `{Countable K} {V : Type}.

(** [key in self] *)
Definition dict_contains (key : K) : M (gmap K V) bool :=
  λ d, (Ok (bool_decide (is_Some (d !! key))), d).

(** [self[key]] *)
Definition dict_getitem (key : K) : M (gmap K V) V :=
  λ d, match d !! key with
       | Some v => ret v d
       | None => raise KeyError d
       end.

(** [self[key] = v] *)
Definition dict_setitem (key : K) (v : V) : M (gmap K V) unit :=
  λ d, (Ok tt, <[key := v]> d).

(** [dict.pop(self, key, None)]: the removed value, or the default. *)
Definition dict_pop (key : K) : M (gmap K V) (option V) :=
  λ d, (Ok (d !! key), delete key d).
End dict.

(** ** Vote records *)

(** Attribute access, resolved by the type of the object as Python
    resolves it by the object. *)
Class HasViewNo (A : Type) := viewNo : A → Z.
Class HasPpSeqNo (A : Type) := ppSeqNo : A → Z.

(** A record with a [voters] attribute holding a mutable set of names.
    [voters_add x r] is [r.voters.add(x)], which changes the set inside
    the record and nothing else. *)
Class HasVoters (R : Type) := {
  voters : R → gset string;
  voters_add : string → R → R;
  voters_voters_add x r : voters (voters_add x r) = {[x]} ∪ voters r;
  voters_add_elem x r : x ∈ voters r → voters_add x r = r;
}.

(** [ThreePhaseVotes = NamedTuple("ThreePhaseVotes", [("voters", Set[str])])] *)
Record ThreePhaseVotes : Type := mkThreePhaseVotes {
  tpv_voters : gset string;
}.

(** [InsChgVotes = NamedTuple("InsChg", [("viewNo", int), ("voters", Set[str])])] *)
Record InsChgVotes : Type := mkInsChgVotes {
  icv_viewNo : Z;
  icv_voters : gset string;
}.

#[export] Instance InsChgVotes_viewNo : HasViewNo InsChgVotes := icv_viewNo.

#[export, refine] Instance ThreePhaseVotes_voters : HasVoters ThreePhaseVotes := {|
  voters := tpv_voters;
  voters_add x r := mkThreePhaseVotes ({[x]} ∪ tpv_voters r);
|}.
Proof.
  - reflexivity.
  - intros x [vs] Hx; simpl in *. f_equal.
    by apply (subseteq_union_1_L (C := gset string)), singleton_subseteq_l.
Defined.

#[export, refine] Instance InsChgVotes_voters : HasVoters InsChgVotes := {|
  voters := icv_voters;
  voters_add x r := mkInsChgVotes (icv_viewNo r) ({[x]} ∪ icv_voters r);
|}.
Proof.
  - reflexivity.
  - intros x [v vs] Hx; simpl in *. f_equal.
    by apply (subseteq_union_1_L (C := gset string)), singleton_subseteq_l.
Defined.

(** ** The base class [TrackedMsgs] *)

(** The two methods a subclass overrides. *)
Class TrackedMsgs (Msg Key Rec : Type) := {
  newVoteMsg : Msg → result Rec;
  getKey : Msg → result Key;
}.

Section TrackedMsgs.
Context {Msg Key Rec : Type} `{Countable Key} `{HasVoters Rec}.
Context `{!TrackedMsgs Msg Key Rec}.

Local Abbreviation state := (gmap Key Rec).

Definition addMsg (msg : Msg) (voter : string) : M state unit :=
  do key <- lift (getKey msg);
  do present <- dict_contains key;
  do _ <- (if negb present
           then (do r <- lift (newVoteMsg msg); dict_setitem key r)
           else ret tt);
  do r <- dict_getitem key;
  dict_setitem key (voters_add voter r).

Definition hasMsg (msg : Msg) : M state bool :=
  do key <- lift (getKey msg);
  dict_contains key.

Definition hasVote (msg : Msg) (voter : string) : M state bool :=
  do key <- lift (getKey msg);
  do present <- dict_contains key;
  if present
  then (do r <- dict_getitem key; ret (bool_decide (voter ∈ voters r)))
  else ret false.

Definition hasEnoughVotes (msg : Msg) (count : Z) : M state bool :=
  do key <- lift (getKey msg);
  do present <- hasMsg msg;
  if present
  then (do r <- dict_getitem key;
        ret (Z.geb (Z.of_nat (size (voters r))) count))
  else ret false.

(** Every way [addMsg] can end. *)
Inductive addMsg_end (m : Msg) (x : string) (s : state) : result unit * state → Prop :=
  | addMsg_end_present k r :
      getKey m = Ok k → s !! k = Some r →
      addMsg_end m x s (Ok tt, <[k := voters_add x r]> s)
  | addMsg_end_absent k r :
      getKey m = Ok k → s !! k = None → newVoteMsg m = Ok r →
      addMsg_end m x s (Ok tt, <[k := voters_add x r]> s)
  | addMsg_end_raise e :
      addMsg_end m x s (Raise e, s).

(** Every record stays, with at least the voters it had. *)
Definition grows (s s' : state) : Prop :=
  ∀ k r, s !! k = Some r → ∃ r', s' !! k = Some r' ∧ voters r ⊆ voters r'.

(** No record is without a voter. *)
Definition populated (s : state) : Prop :=
  ∀ k r, s !! k = Some r → voters r ≠ ∅.
End TrackedMsgs.

(** The base class itself leaves both methods unimplemented. *)
Definition TrackedMsgs_abstract {Msg Key Rec : Type} : TrackedMsgs Msg Key Rec := {|
  newVoteMsg _ := Raise NotImplementedError;
  getKey _ := Raise NotImplementedError;
|}.

(** ** Vote messages *)

(** Modelled from the spec: the PREPARE message of [plenum.common.types],
    which carries at least a view number, a sequence number and a content
    digest. *)
Record Prepare : Type := mkPrepare {
  prepare_viewNo : Z;
  prepare_ppSeqNo : Z;
  prepare_digest : string;
}.

(** Modelled from the spec: the COMMIT message of [plenum.common.types],
    of the same shape as PREPARE. *)
Record Commit : Type := mkCommit {
  commit_viewNo : Z;
  commit_ppSeqNo : Z;
  commit_digest : string;
}.

(** Modelled from the spec: the INSTANCE-CHANGE message, which carries at
    least a view number. *)
Record InstanceChange : Type := mkInstanceChange {
  instchg_viewNo : Z;
}.

#[global] Instance Prepare_viewNo : HasViewNo Prepare := prepare_viewNo.
#[global] Instance Prepare_ppSeqNo : HasPpSeqNo Prepare := prepare_ppSeqNo.
#[global] Instance Commit_viewNo : HasViewNo Commit := commit_viewNo.
#[global] Instance Commit_ppSeqNo : HasPpSeqNo Commit := commit_ppSeqNo.
#[global] Instance InstanceChange_viewNo : HasViewNo InstanceChange := instchg_viewNo.

(** ** [class Prepares(TrackedMsgs)] *)
Module Prepares.
Abbreviation t := (gmap (Z * Z) ThreePhaseVotes).

#[global] Instance tracked : TrackedMsgs Prepare (Z * Z) ThreePhaseVotes := {|
  newVoteMsg msg := Ok (mkThreePhaseVotes ∅);
  getKey prepare := Ok (viewNo prepare, ppSeqNo prepare);
|}.

Definition addVote (prepare : Prepare) (voter : string) : M t unit :=
  addMsg prepare voter.

Definition hasPrepare (prepare : Prepare) : M t bool :=
  hasMsg prepare.

Definition hasPrepareFrom (prepare : Prepare) (voter : string) : M t bool :=
  hasVote prepare voter.

Definition hasQuorum (prepare : Prepare) (f : Z) : M t bool :=
  hasEnoughVotes prepare (2 * f).

(** One call of a public method. *)
Inductive call : Type :=
  | AddVote (prepare : Prepare) (voter : string)
  | HasPrepare (prepare : Prepare)
  | HasPrepareFrom (prepare : Prepare) (voter : string)
  | HasEnoughVotes (prepare : Prepare) (count : Z)
  | HasQuorum (prepare : Prepare) (f : Z).

(** The tracker after a call, whether it returned or raised. *)
Definition exec (s : t) (c : call) : t :=
  match c with
  | AddVote m x => final (addVote m x s)
  | HasPrepare m => final (hasPrepare m s)
  | HasPrepareFrom m x => final (hasPrepareFrom m x s)
  | HasEnoughVotes m n => final (hasEnoughVotes m n s)
  | HasQuorum m f => final (hasQuorum m f s)
  end.

(** The tracker after a sequence of calls, the first one first. *)
Definition run (cs : list call) (s : t) : t := foldl exec s cs.
End Prepares.

(** ** [class Commits(TrackedMsgs)] *)
Module Commits.
Abbreviation t := (gmap (Z * Z) ThreePhaseVotes).

#[global] Instance tracked : TrackedMsgs Commit (Z * Z) ThreePhaseVotes := {|
  newVoteMsg msg := Ok (mkThreePhaseVotes ∅);
  getKey commit := Ok (viewNo commit, ppSeqNo commit);
|}.

Definition addVote (commit : Commit) (voter : string) : M t unit :=
  addMsg commit voter.

Definition hasCommit (commit : Commit) : M t bool :=
  hasMsg commit.

Definition hasCommitFrom (commit : Commit) (voter : string) : M t bool :=
  hasVote commit voter.

Definition hasQuorum (commit : Commit) (f : Z) : M t bool :=
  hasEnoughVotes commit (2 * f + 1).

Inductive call : Type :=
  | AddVote (commit : Commit) (voter : string)
  | HasCommit (commit : Commit)
  | HasCommitFrom (commit : Commit) (voter : string)
  | HasEnoughVotes (commit : Commit) (count : Z)
  | HasQuorum (commit : Commit) (f : Z).

Definition exec (s : t) (c : call) : t :=
  match c with
  | AddVote m x => final (addVote m x s)
  | HasCommit m => final (hasCommit m s)
  | HasCommitFrom m x => final (hasCommitFrom m x s)
  | HasEnoughVotes m n => final (hasEnoughVotes m n s)
  | HasQuorum m f => final (hasQuorum m f s)
  end.

Definition run (cs : list call) (s : t) : t := foldl exec s cs.
End Commits.

(** ** [class InstanceChanges(TrackedMsgs)] *)

(** What the methods of [InstanceChanges] are called with: an [int], or
    an object with a [viewNo] attribute. *)
Inductive view_arg : Type :=
  | Int (v : Z)
  | Obj (m : InstanceChange).

Module InstanceChanges.
Abbreviation t := (gmap Z InsChgVotes).

(** [msg.viewNo] on an [int] raises [AttributeError]. *)
#[global] Instance tracked : TrackedMsgs view_arg Z InsChgVotes := {|
  newVoteMsg msg :=
    match msg with
    | Obj m => Ok (mkInsChgVotes (viewNo m) ∅)
    | Int _ => Raise AttributeError
    end;
  getKey msg :=
    match msg with
    | Int v => Ok v
    | Obj m => Ok (viewNo m)
    end;
|}.

Definition addVote (msg : view_arg) (voter : string) : M t unit :=
  addMsg msg voter.

Definition hasView (viewNo : view_arg) : M t bool :=
  hasMsg viewNo.

Definition hasInstChngFrom (viewNo : view_arg) (voter : string) : M t bool :=
  hasVote viewNo voter.

Definition hasQuorum (viewNo : view_arg) (f : Z) : M t bool :=
  hasEnoughVotes viewNo (2 * f + 1).

(** [super().pop(key, None)], its value dropped. *)
Definition pop (key : Z) : M t unit :=
  do _ <- dict_pop key;
  ret tt.

Inductive call : Type :=
  | AddVote (msg : view_arg) (voter : string)
  | HasView (viewNo : view_arg)
  | HasInstChngFrom (viewNo : view_arg) (voter : string)
  | HasEnoughVotes (msg : view_arg) (count : Z)
  | HasQuorum (viewNo : view_arg) (f : Z)
  | Pop (key : Z).

Definition exec (s : t) (c : call) : t :=
  match c with
  | AddVote m x => final (addVote m x s)
  | HasView m => final (hasView m s)
  | HasInstChngFrom m x => final (hasInstChngFrom m x s)
  | HasEnoughVotes m n => final (hasEnoughVotes m n s)
  | HasQuorum m f => final (hasQuorum m f s)
  | Pop k => final (pop k s)
  end.

Definition run (cs : list call) (s : t) : t := foldl exec s cs.

(** Every record is filed under the view number it names. *)
Definition filed (s : t) : Prop :=
  ∀ k r, s !! k = Some r → viewNo r = k.
End InstanceChanges.

(** ** The tally of a key *)

(** The voters recorded under a key; none when the key has no record. *)
Definition voters_at {Key Rec : Type} `{Countable Key} `{HasVoters Rec}
    (k : Key) (s : gmap Key Rec) : gset string :=
  from_option voters ∅ (s !! k).

(** ** The request validation plugin of the auction example

    [plenum/test/plugin/plugin5/plugin_auction_req_validation.py], run
    with assertions enabled. *)

(** The Python values a request is made of: [None], booleans, integers,
    floats, strings, lists, and dictionaries with string keys. *)
Inductive pyval : Type :=
  | PNone
  | PBool (b : bool)
  | PInt (z : Z)
  | PFloat (f : float)
  | PStr (s : string)
  | PList (l : list pyval)
  | PDict (d : gmap string pyval).

(** [bool(v)], the truth value of [v]. *)
Definition truthy (v : pyval) : bool :=
  match v with
  | PNone => false
  | PBool b => b
  | PInt z => negb (z =? 0)
  | PFloat f => negb (PrimFloat.eqb f PrimFloat.zero)
  | PStr s => negb (String.eqb s "")
  | PList l => match l with [] => false | _ :: _ => true end
  | PDict d => negb (bool_decide (d = ∅))
  end.

(** [v in l] for a list [l] of strings: only an equal string is in it. *)
Definition py_in (v : pyval) (l : list string) : bool :=
  match v with
  | PStr s => bool_decide (s ∈ l)
  | _ => false
  end.

(** [v == s] for a string [s]. *)
Definition py_eq_str (v : pyval) (s : string) : bool :=
  match v with
  | PStr s' => bool_decide (s' = s)
  | _ => false
  end.

(** [d.get(key)]: [None] for a missing key. *)
Definition dict_get (d : gmap string pyval) (key : string) : pyval :=
  default PNone (d !! key).

(** [isinstance(v, (int, float))]; a [bool] is an [int]. *)
Definition isinstance_int_float (v : pyval) : bool :=
  match v with
  | PBool _ | PInt _ | PFloat _ => true
  | _ => false
  end.

(** [v > 0] for a number [v]; [True] is 1 and [False] is 0. *)
Definition gt_zero (v : pyval) : bool :=
  match v with
  | PBool b => b
  | PInt z => 0 <? z
  | PFloat f => PrimFloat.ltb PrimFloat.zero f
  | _ => false
  end.

(** [key in d and d[key]] *)
Definition in_and_truthy (key : string) (d : gmap string pyval) : bool :=
  match d !! key with
  | Some v => truthy v
  | None => false
  end.

Definition AUCTION_START : string := "AUCTION_START".
Definition AUCTION_END : string := "AUCTION_END".
Definition PLACE_BID : string := "PLACE_BID".
Definition GET_BAL : string := "GET_BAL".
Definition AMOUNT : string := "amount".
Definition ID : string := "id".

(** How a call of the plugin ends: it returns [None], or an [assert]
    fails with its message. *)
Inductive verdict : Type :=
  | Verified
  | AssertionError (msg : string).

(** [class AuctionReqValidationPlugin]: its one attribute. *)
Record AuctionReqValidationPlugin : Type := mkAuctionReqValidationPlugin {
  count : Z;
}.

(** [__init__] *)
Definition AuctionReqValidationPlugin_init : AuctionReqValidationPlugin :=
  mkAuctionReqValidationPlugin 0.

Definition validTxnTypes : list string :=
  [AUCTION_START; AUCTION_END; PLACE_BID; GET_BAL].

(** A statement of a method: it runs on [self] and ends normally or in
    a failed assertion. *)
Definition stmt : Type :=
  AuctionReqValidationPlugin → verdict * AuctionReqValidationPlugin.

(** [pass] *)
Definition pass : stmt := λ self, (Verified, self).

(** One statement after another; a failed assertion ends the method. *)
Definition then_ (a b : stmt) : stmt :=
  λ self, match a self with
          | (Verified, self') => b self'
          | (AssertionError msg, self') => (AssertionError msg, self')
          end.

Notation "a >> b" := (then_ a b) (at level 61, left associativity).

(** [assert cond, msg] *)
Definition assert_ (cond : bool) (msg : string) : stmt :=
  λ self, if cond then (Verified, self) else (AssertionError msg, self).

(** [self.count += 1] *)
Definition count_incr : stmt :=
  λ self, (Verified, mkAuctionReqValidationPlugin (count self + 1)).

Section AuctionReqValidationPlugin.
(** The keys [TXN_TYPE] and [DATA] of [plenum.common.txn], and the text
    that Python's [format] gives for a value. *)
Variables (TXN_TYPE DATA : string) (format_value : pyval → string).

Definition verify (operation : gmap string pyval) : stmt :=
  let typ := dict_get operation TXN_TYPE in
  assert_ (py_in typ validTxnTypes)
    (format_value typ ++ " is not a valid transaction type, must be one of "
       ++ String.concat ", " validTxnTypes) >>
  (if py_in typ [AUCTION_START; AUCTION_END; PLACE_BID]
   then
     match dict_get operation DATA with
     | PDict data =>
         assert_ (in_and_truthy ID data) "No id provided for auction" >>
         (if py_eq_str typ PLACE_BID
          then
            let amount := dict_get data AMOUNT in
            assert_ (isinstance_int_float amount && gt_zero amount)
              (AMOUNT ++ " must be present and should be a number greater than 0")
          else pass)
     | _ =>
         assert_ false (DATA ++ " attribute is missing or not in proper format")
     end
   else pass) >>
  count_incr.
End AuctionReqValidationPlugin.

(** ** How the base-class methods run *)
Section TrackedMsgs_runs.
Context {Msg Key Rec : Type} `{Countable Key} `{HasVoters Rec}.
Context `{!TrackedMsgs Msg Key Rec}.
Implicit Types (s : gmap Key Rec) (m : Msg) (k : Key) (r : Rec) (x : string).

Lemma addMsg_present m x k r s :
  getKey m = Ok k → s !! k = Some r →
  addMsg m x s = (Ok tt, <[k := voters_add x r]> s).
Proof.
  intros Hk Hr. unfold addMsg, bind, lift, dict_contains, dict_getitem, dict_setitem, ret.
  rewrite Hk, Hr. rewrite bool_decide_eq_true_2 by eauto. simpl.
  by rewrite Hr.
Qed.

Lemma addMsg_absent m x k r s :
  getKey m = Ok k → s !! k = None → newVoteMsg m = Ok r →
  addMsg m x s = (Ok tt, <[k := voters_add x r]> s).
Proof.
  intros Hk Hs Hr. unfold addMsg, bind, lift, dict_contains, dict_getitem, dict_setitem, ret.
  rewrite Hk, Hs. rewrite bool_decide_eq_false_2 by (by intros [? ?]). simpl.
  rewrite Hr, lookup_insert_eq. by rewrite insert_insert_eq.
Qed.

Lemma addMsg_absent_raise m x k e s :
  getKey m = Ok k → s !! k = None → newVoteMsg m = Raise e →
  addMsg m x s = (Raise e, s).
Proof.
  intros Hk Hs Hr. unfold addMsg, bind, lift, dict_contains.
  rewrite Hk, Hs. rewrite bool_decide_eq_false_2 by (by intros [? ?]). simpl.
  by rewrite Hr.
Qed.

Lemma addMsg_getKey_raise m x e s :
  getKey m = Raise e → addMsg m x s = (Raise e, s).
Proof. intros Hk. unfold addMsg, bind, lift. by rewrite Hk. Qed.

Lemma hasMsg_run m k s :
  getKey m = Ok k →
  hasMsg m s = (Ok (bool_decide (is_Some (s !! k))), s).
Proof. intros Hk. unfold hasMsg, bind, lift, dict_contains. by rewrite Hk. Qed.

Lemma hasVote_run m x k s :
  getKey m = Ok k →
  hasVote m x s =
    (Ok (match s !! k with
         | Some r => bool_decide (x ∈ voters r)
         | None => false
         end), s).
Proof.
  intros Hk. unfold hasVote, bind, lift, dict_contains, dict_getitem, ret.
  rewrite Hk. destruct (s !! k) as [r|] eqn:Hs.
  - rewrite bool_decide_eq_true_2 by eauto. by rewrite Hs.
  - by rewrite bool_decide_eq_false_2 by (by intros [? ?]).
Qed.

Lemma hasEnoughVotes_run m c k s :
  getKey m = Ok k →
  hasEnoughVotes m c s =
    (Ok (match s !! k with
         | Some r => Z.of_nat (size (voters r)) >=? c
         | None => false
         end), s).
Proof.
  intros Hk. unfold hasEnoughVotes, bind, lift.
  rewrite Hk, (hasMsg_run _ k) by done.
  unfold dict_getitem. destruct (s !! k) as [r|] eqn:Hs.
  - rewrite bool_decide_eq_true_2 by eauto. by rewrite Hs.
  - by rewrite bool_decide_eq_false_2 by (by intros [? ?]).
Qed.

(** Queries leave the tracker as it is, whatever they answer. *)
Lemma hasMsg_final m s : final (hasMsg m s) = s.
Proof.
  destruct (getKey m) as [k|e] eqn:Hk.
  - by rewrite (hasMsg_run _ k).
  - unfold hasMsg, bind, lift. by rewrite Hk.
Qed.

Lemma hasVote_final m x s : final (hasVote m x s) = s.
Proof.
  destruct (getKey m) as [k|e] eqn:Hk.
  - by rewrite (hasVote_run _ _ k).
  - unfold hasVote, bind, lift. by rewrite Hk.
Qed.

Lemma hasEnoughVotes_final m c s : final (hasEnoughVotes m c s) = s.
Proof.
  destruct (getKey m) as [k|e] eqn:Hk.
  - by rewrite (hasEnoughVotes_run _ _ k).
  - unfold hasEnoughVotes, bind, lift. by rewrite Hk.
Qed.

(** A vote that is accepted files the voter under the key of the
    message, in the record found there or else in a new one. *)
Lemma addMsg_ok m x k r0 s :
  getKey m = Ok k → newVoteMsg m = Ok r0 →
  addMsg m x s = (Ok tt, <[k := voters_add x (default r0 (s !! k))]> s).
Proof.
  intros Hk Hr0. destruct (s !! k) as [r|] eqn:Hs; simpl.
  - by apply addMsg_present.
  - by apply addMsg_absent.
Qed.

Lemma addMsg_cases m x s : addMsg_end m x s (addMsg m x s).
Proof.
  destruct (getKey m) as [k|e] eqn:Hk.
  - destruct (s !! k) as [r|] eqn:Hs.
    + rewrite (addMsg_present _ _ k r) by done. by constructor.
    + destruct (newVoteMsg m) as [r|e] eqn:Hr.
      * rewrite (addMsg_absent _ _ k r) by done. by constructor 2.
      * rewrite (addMsg_absent_raise _ _ k e) by done. constructor.
  - rewrite (addMsg_getKey_raise _ _ e) by done. constructor.
Qed.

(** *** Idempotence *)

Lemma voters_add_twice x r : voters_add x (voters_add x r) = voters_add x r.
Proof. apply voters_add_elem. rewrite voters_voters_add. set_solver. Qed.

Lemma addMsg_again m x s s' :
  addMsg m x s = (Ok tt, s') → addMsg m x s' = (Ok tt, s').
Proof.
  intros Hrun. destruct (addMsg_cases m x s) as [k r Hk Hs|k r Hk Hs Hr|e];
    simplify_eq.
  - rewrite (addMsg_present _ _ k (voters_add x r)) by (done || apply lookup_insert_eq).
    by rewrite voters_add_twice, insert_insert_eq.
  - rewrite (addMsg_present _ _ k (voters_add x r)) by (done || apply lookup_insert_eq).
    by rewrite voters_add_twice, insert_insert_eq.
Qed.

Lemma times_addMsg n m x s :
  times (S n) (addMsg m x) s = addMsg m x s.
Proof.
  induction n as [|n IH] in s |- *.
  - simpl. unfold bind, ret. by destruct (addMsg m x s) as [[[]|e] s'].
  - change (times (S (S n)) (addMsg m x) s)
      with (bind (addMsg m x) (λ _, times (S n) (addMsg m x)) s).
    unfold bind at 1. destruct (addMsg m x s) as [[[]|e] s'] eqn:Hrun; [|done].
    rewrite IH. by apply addMsg_again in Hrun.
Qed.

(** *** Votes from a list of voters *)

Lemma for_each_addMsg m l k r0 s :
  getKey m = Ok k → newVoteMsg m = Ok r0 → l ≠ [] →
  ∃ r, for_each (addMsg m) l s = (Ok tt, <[k := r]> s) ∧
       voters r = list_to_set l ∪ voters (default r0 (s !! k)).
Proof.
  intros Hk Hr0. induction l as [|x l IH] in s |- *; [done|]. intros _.
  simpl. unfold bind at 1. rewrite (addMsg_ok _ _ k r0) by done.
  destruct l as [|y l].
  - simpl. unfold ret. eexists; split; [done|].
    rewrite voters_voters_add. set_solver.
  - destruct (IH (<[k := voters_add x (default r0 (s !! k))]> s)) as (r & Hrun & Hv);
      [done|].
    rewrite Hrun. exists r. split; [by rewrite insert_insert_eq|].
    rewrite Hv, lookup_insert_eq. simpl. rewrite voters_voters_add. set_solver.
Qed.

(** *** Other keys *)

Lemma addMsg_other m x k k' s :
  getKey m = Ok k → k ≠ k' → final (addMsg m x s) !! k' = s !! k'.
Proof.
  intros Hk Hne. destruct (addMsg_cases m x s) as [k0 r Hk0 Hs|k0 r Hk0 Hs Hr|e];
    simpl; [| |done]; rewrite Hk in Hk0; simplify_eq; by rewrite lookup_insert_ne.
Qed.

(** *** Voter sets only grow under [addMsg] *)

Lemma grows_refl s : grows s s.
Proof. intros k r Hs. by exists r. Qed.

Lemma grows_trans s1 s2 s3 : grows s1 s2 → grows s2 s3 → grows s1 s3.
Proof.
  intros H12 H23 k r Hs. destruct (H12 k r Hs) as (r2 & Hs2 & Hsub2).
  destruct (H23 k r2 Hs2) as (r3 & Hs3 & Hsub3). exists r3. split; [done|].
  by transitivity (voters r2).
Qed.

Lemma addMsg_grows m x s : grows s (final (addMsg m x s)).
Proof.
  destruct (addMsg_cases m x s) as [k0 r0 Hk0 Hs0|k0 r0 Hk0 Hs0 Hr|e]; simpl;
    [| |apply grows_refl]; intros k r Hs.
  - destruct (decide (k0 = k)) as [->|Hne].
    + rewrite lookup_insert_eq. eexists; split; [done|]. simplify_eq.
      rewrite voters_voters_add. set_solver.
    + rewrite lookup_insert_ne by done. by exists r.
  - destruct (decide (k0 = k)) as [->|Hne]; [congruence|].
    rewrite lookup_insert_ne by done. by exists r.
Qed.

Lemma hasEnoughVotes_grows m c s s' :
  grows s s' →
  hasEnoughVotes m c s = (Ok true, s) → hasEnoughVotes m c s' = (Ok true, s').
Proof.
  intros Hg. destruct (getKey m) as [k|e] eqn:Hk.
  - rewrite !(hasEnoughVotes_run _ _ k) by done. intros Hq.
    destruct (s !! k) as [r|] eqn:Hs; [|done].
    destruct (Hg k r Hs) as (r' & -> & Hsub). do 2 f_equal.
    apply subseteq_size in Hsub. simplify_eq. lia.
  - unfold hasEnoughVotes, bind, lift. by rewrite Hk.
Qed.

(** *** No record without a voter *)

Lemma populated_empty : populated (∅ : gmap Key Rec).
Proof. intros k r Hs. by rewrite lookup_empty in Hs. Qed.

Lemma addMsg_populated m x s : populated s → populated (final (addMsg m x s)).
Proof.
  intros Hp. destruct (addMsg_cases m x s) as [k0 r0 Hk0 Hs0|k0 r0 Hk0 Hs0 Hr|e];
    simpl; [| |done]; intros k r;
    (destruct (decide (k0 = k)) as [->|Hne];
     [rewrite lookup_insert_eq; intros [= <-]; rewrite voters_voters_add; set_solver
     |rewrite lookup_insert_ne by done; apply Hp]).
Qed.

Lemma populated_enough m s :
  populated s → hasMsg m s = (Ok true, s) → hasEnoughVotes m 1 s = (Ok true, s).
Proof.
  intros Hp. destruct (getKey m) as [k|e] eqn:Hk.
  - rewrite (hasMsg_run _ k), (hasEnoughVotes_run _ _ k) by done. intros Hm.
    destruct (s !! k) as [r|] eqn:Hs.
    + do 2 f_equal. apply Hp in Hs.
      assert (size (voters r) ≠ 0%nat) by (by intros ?%size_empty_iff%leibniz_equiv).
      lia.
    + by rewrite bool_decide_eq_false_2 in Hm by (by intros [? ?]).
  - unfold hasMsg, bind, lift. by rewrite Hk.
Qed.

(** *** Keys without a record *)

Lemma absent_queries m k x c s :
  getKey m = Ok k → s !! k = None →
  hasMsg m s = (Ok false, s) ∧
  hasVote m x s = (Ok false, s) ∧
  hasEnoughVotes m c s = (Ok false, s).
Proof.
  intros Hk Hs.
  rewrite (hasMsg_run _ k), (hasVote_run _ _ k), (hasEnoughVotes_run _ _ k) by done.
  rewrite Hs. by rewrite bool_decide_eq_false_2 by (by intros [? ?]).
Qed.

(** *** Counting votes *)

Lemma hasEnoughVotes_iff m c k s :
  getKey m = Ok k →
  ∃ q, hasEnoughVotes m c s = (Ok q, s) ∧
       (q = true ↔ ∃ r, s !! k = Some r ∧ c ≤ Z.of_nat (size (voters r))).
Proof.
  intros Hk. rewrite (hasEnoughVotes_run _ _ k) by done.
  eexists; split; [done|]. destruct (s !! k) as [r|].
  - split.
    + intros Hq. exists r. split; [done|lia].
    + intros (r' & [= <-] & Hle). lia.
  - split; [done|]. by intros (r' & ? & _).
Qed.

(** Votes for a key without a record, then a count asked through any
    message of that key. *)
Lemma hasEnoughVotes_after_votes m m' l k r0 c s :
  getKey m = Ok k → getKey m' = Ok k →
  newVoteMsg m = Ok r0 → voters r0 = ∅ →
  s !! k = None → l ≠ [] →
  hasEnoughVotes m' c (final (for_each (addMsg m) l s)) =
    (Ok (Z.of_nat (size (list_to_set l : gset string)) >=? c),
     final (for_each (addMsg m) l s)).
Proof.
  intros Hk Hk' Hr0 Hv0 Hs Hl.
  destruct (for_each_addMsg m l k r0 s) as (r & Hrun & Hv); [done..|].
  rewrite Hrun. cbn [final snd].
  rewrite (hasEnoughVotes_run _ _ k), lookup_insert_eq by done.
  rewrite Hv, Hs. cbn [default]. by rewrite Hv0, (right_id_L ∅ (∪)).
Qed.
End TrackedMsgs_runs.

(** On the base class itself every method raises [NotImplementedError]
    and touches nothing. *)
Lemma TrackedMsgs_abstract_raises {Msg Key Rec : Type} `{Countable Key}
    `{HasVoters Rec} (m : Msg) (x : string) (c : Z) (s : gmap Key Rec) :
  let base := TrackedMsgs_abstract in
  addMsg m x s = (Raise NotImplementedError, s) ∧
  hasMsg m s = (Raise NotImplementedError, s) ∧
  hasVote m x s = (Raise NotImplementedError, s) ∧
  hasEnoughVotes m c s = (Raise NotImplementedError, s).
Proof. done. Qed.

(** ** Quorum thresholds *)

(** C1: for every state of a [Prepares] tracker, every PREPARE message
    [m] and every [f] (so also every non-negative one), [hasQuorum m f]
    returns, leaves the tracker as it is, and answers true exactly when
    the key [(m.viewNo, m.ppSeqNo)] has a record whose voter set has at
    least [2 * f] members.  With [f = 1], starting without a record for
    the key, votes from exactly one distinct voter give no quorum and
    votes from exactly two distinct voters give one. *)
Theorem Prepares_hasQuorum_threshold
    (s : Prepares.t) (m : Prepare) (f : Z) (l : list string) :
  (∃ q, Prepares.hasQuorum m f s = (Ok q, s) ∧
        (q = true ↔
         ∃ r, s !! (viewNo m, ppSeqNo m) = Some r ∧
              2 * f ≤ Z.of_nat (size (voters r)))) ∧
  (s !! (viewNo m, ppSeqNo m) = None →
   let s' := final (for_each (Prepares.addVote m) l s) in
   (size (list_to_set l : gset string) = 1%nat →
    Prepares.hasQuorum m 1 s' = (Ok false, s')) ∧
   (size (list_to_set l : gset string) = 2%nat →
    Prepares.hasQuorum m 1 s' = (Ok true, s'))).
Proof.
  split.
  - by apply hasEnoughVotes_iff.
  - intros Hs s'. unfold Prepares.hasQuorum.
    split; intros Hsz; subst s'; change (Prepares.addVote m) with (addMsg m);
      (rewrite (hasEnoughVotes_after_votes m m l (viewNo m, ppSeqNo m)
                  (mkThreePhaseVotes ∅));
       [by rewrite Hsz|done..|by intros ->]).
Qed.

(** C1 at the scenario of the specification: PREPARE(view 1, seq 10)
    voted by B alone, and by B, then C, then C again, in an empty
    tracker. *)
Lemma Prepares_hasQuorum_threshold_witness :
  let m := mkPrepare 1 10 "d" in
  let s1 := final (for_each (Prepares.addVote m) ["B"]%string ∅) in
  let s2 := final (for_each (Prepares.addVote m) ["B"; "C"; "C"]%string ∅) in
  (∅ : Prepares.t) !! (viewNo m, ppSeqNo m) = None ∧
  (size (list_to_set ["B"]%string : gset string) = 1%nat ∧
   Prepares.hasQuorum m 1 s1 = (Ok false, s1)) ∧
  (size (list_to_set ["B"; "C"; "C"]%string : gset string) = 2%nat ∧
   Prepares.hasQuorum m 1 s2 = (Ok true, s2)).
Proof.
  intros m s1 s2. split; [reflexivity|].
  split; (split; [reflexivity|]).
  - apply (Prepares_hasQuorum_threshold ∅ m 1 ["B"]%string); reflexivity.
  - apply (Prepares_hasQuorum_threshold ∅ m 1 ["B"; "C"; "C"]%string);
      reflexivity.
Defined.

(** C2: for every state of a [Commits] tracker and COMMIT message [m],
    and for every state of an [InstanceChanges] tracker and view number
    [v], [hasQuorum] with [f] returns, leaves the tracker as it is, and
    answers true exactly when the key has a record whose voter set has at
    least [2 * f + 1] members.  With [f = 1], starting without a record
    for the key, votes from exactly two distinct voters give no quorum
    and votes from exactly three give one. *)
Theorem Commits_InstanceChanges_hasQuorum_threshold (f : Z) (l : list string) :
  (∀ (s : Commits.t) (m : Commit),
     (∃ q, Commits.hasQuorum m f s = (Ok q, s) ∧
           (q = true ↔
            ∃ r, s !! (viewNo m, ppSeqNo m) = Some r ∧
                 2 * f + 1 ≤ Z.of_nat (size (voters r)))) ∧
     (s !! (viewNo m, ppSeqNo m) = None →
      let s' := final (for_each (Commits.addVote m) l s) in
      (size (list_to_set l : gset string) = 2%nat →
       Commits.hasQuorum m 1 s' = (Ok false, s')) ∧
      (size (list_to_set l : gset string) = 3%nat →
       Commits.hasQuorum m 1 s' = (Ok true, s')))) ∧
  (∀ (s : InstanceChanges.t) (v : Z),
     (∃ q, InstanceChanges.hasQuorum (Int v) f s = (Ok q, s) ∧
           (q = true ↔
            ∃ r, s !! v = Some r ∧ 2 * f + 1 ≤ Z.of_nat (size (voters r)))) ∧
     (s !! v = None →
      let s' := final (for_each (InstanceChanges.addVote
                                   (Obj (mkInstanceChange v))) l s) in
      (size (list_to_set l : gset string) = 2%nat →
       InstanceChanges.hasQuorum (Int v) 1 s' = (Ok false, s')) ∧
      (size (list_to_set l : gset string) = 3%nat →
       InstanceChanges.hasQuorum (Int v) 1 s' = (Ok true, s')))).
Proof.
  split.
  - intros s m. split; [by apply hasEnoughVotes_iff|].
    intros Hs s'. unfold Commits.hasQuorum.
    split; intros Hsz; subst s'; change (Commits.addVote m) with (addMsg m);
      (rewrite (hasEnoughVotes_after_votes m m l (viewNo m, ppSeqNo m)
                  (mkThreePhaseVotes ∅));
       [by rewrite Hsz|done..|by intros ->]).
  - intros s v. split; [by apply hasEnoughVotes_iff|].
    intros Hs s'. unfold InstanceChanges.hasQuorum.
    split; intros Hsz; subst s';
      change (InstanceChanges.addVote ?a) with (addMsg a);
      (rewrite (hasEnoughVotes_after_votes (Obj (mkInstanceChange v)) (Int v) l v
                  (mkInsChgVotes v ∅));
       [by rewrite Hsz|done..|by intros ->]).
Qed.

(** C2 at the scenario of the specification: COMMIT(view 1, seq 10)
    voted by A, B and C, and view 3 voted by the same three. *)
Lemma Commits_InstanceChanges_hasQuorum_threshold_witness :
  let l := ["A"; "B"; "C"]%string in
  let m := mkCommit 1 10 "d" in
  let s1 := final (for_each (Commits.addVote m) l ∅) in
  let s2 := final (for_each (InstanceChanges.addVote
                               (Obj (mkInstanceChange 3))) l ∅) in
  ((∅ : Commits.t) !! (viewNo m, ppSeqNo m) = None ∧
   size (list_to_set l : gset string) = 3%nat ∧
   Commits.hasQuorum m 1 s1 = (Ok true, s1)) ∧
  ((∅ : InstanceChanges.t) !! 3 = None ∧
   size (list_to_set l : gset string) = 3%nat ∧
   InstanceChanges.hasQuorum (Int 3) 1 s2 = (Ok true, s2)).
Proof.
  intros l m s1 s2.
  pose proof (Commits_InstanceChanges_hasQuorum_threshold 1 l) as [HC HI].
  split; (split; [reflexivity|]; split; [reflexivity|]).
  - apply (HC ∅ m); reflexivity.
  - apply (HI ∅ 3); reflexivity.
Defined.

(** ** The two forms of an [InstanceChanges] argument *)

(** Both forms give the same key. *)
Lemma InstanceChanges_getKey_dual (m : InstanceChange) :
  getKey (Obj m) = getKey (Int (viewNo m)).
Proof. reflexivity. Qed.

(** The queries answer the same for both forms. *)
Lemma InstanceChanges_queries_dual
    (s : InstanceChanges.t) (m : InstanceChange) (x : string) (f : Z) :
  InstanceChanges.hasView (Int (viewNo m)) s = InstanceChanges.hasView (Obj m) s ∧
  InstanceChanges.hasInstChngFrom (Int (viewNo m)) x s =
    InstanceChanges.hasInstChngFrom (Obj m) x s ∧
  InstanceChanges.hasQuorum (Int (viewNo m)) f s =
    InstanceChanges.hasQuorum (Obj m) f s.
Proof.
  unfold InstanceChanges.hasView, InstanceChanges.hasInstChngFrom,
    InstanceChanges.hasQuorum.
  by rewrite !(hasMsg_run _ (viewNo m)), !(hasVote_run _ _ (viewNo m)),
    !(hasEnoughVotes_run _ _ (viewNo m)).
Qed.

(** So does [addVote] once the view has a record. *)
Lemma InstanceChanges_addVote_dual_present
    (s : InstanceChanges.t) (m : InstanceChange) (x : string) :
  is_Some (s !! viewNo m) →
  InstanceChanges.addVote (Int (viewNo m)) x s = InstanceChanges.addVote (Obj m) x s.
Proof.
  intros [r Hr]. unfold InstanceChanges.addVote.
  by rewrite !(addMsg_present _ _ (viewNo m) r).
Qed.

(** With an [int] and no record for the view, [newVoteMsg] reads
    [viewNo] off the [int]: the call raises and files nothing. *)
Lemma InstanceChanges_addVote_int_absent
    (s : InstanceChanges.t) (v : Z) (x : string) :
  s !! v = None →
  InstanceChanges.addVote (Int v) x s = (Raise AttributeError, s).
Proof. intros Hs. by apply (addMsg_absent_raise _ _ v). Qed.

(** C3: [addVote] with a raw view number does not do what it does with a
    message of that view number.  On an empty tracker, [addVote(3, "A")]
    raises [AttributeError] and files nothing, where
    [addVote(msg, "A")] with [msg.viewNo = 3] returns and files A under
    view 3. *)
Theorem InstanceChanges_addVote_int_diverges :
  InstanceChanges.addVote (Int 3) "A" ∅ = (Raise AttributeError, ∅) ∧
  InstanceChanges.addVote (Obj (mkInstanceChange 3)) "A" ∅ =
    (Ok tt, {[3 := mkInsChgVotes 3 {["A"%string]}]}).
Proof. split; vm_compute; reflexivity. Qed.

(** ** Repeated votes *)

(** C4: for each of the three trackers, every state, message [m] and
    voter [x], calling [addVote m x] any number [n ≥ 1] of times in a row
    leaves the outcome and the tracker (so also the size of the voter set
    of the key of [m]) exactly as one call does; every call returns
    [None] and none raises.  For [InstanceChanges] the equality holds for
    both forms of the argument, and the calls return for a message. *)
Theorem addVote_idempotent (n : nat) (x : string) :
  (1 ≤ n)%nat →
  (∀ (s : Prepares.t) (m : Prepare),
     times n (Prepares.addVote m x) s = Prepares.addVote m x s ∧
     outcome (Prepares.addVote m x s) = Ok tt) ∧
  (∀ (s : Commits.t) (m : Commit),
     times n (Commits.addVote m x) s = Commits.addVote m x s ∧
     outcome (Commits.addVote m x s) = Ok tt) ∧
  (∀ (s : InstanceChanges.t) (a : view_arg),
     times n (InstanceChanges.addVote a x) s = InstanceChanges.addVote a x s ∧
     ∀ m, a = Obj m → outcome (InstanceChanges.addVote a x s) = Ok tt).
Proof.
  intros Hn. destruct n as [|n]; [lia|].
  split; [|split].
  - intros s m. split; [apply times_addMsg|].
    unfold Prepares.addVote.
    by rewrite (addMsg_ok _ _ (viewNo m, ppSeqNo m) (mkThreePhaseVotes ∅)).
  - intros s m. split; [apply times_addMsg|].
    unfold Commits.addVote.
    by rewrite (addMsg_ok _ _ (viewNo m, ppSeqNo m) (mkThreePhaseVotes ∅)).
  - intros s a. split; [apply times_addMsg|].
    intros m ->. unfold InstanceChanges.addVote.
    by rewrite (addMsg_ok _ _ (viewNo m) (mkInsChgVotes (viewNo m) ∅)).
Qed.

(** C4 at three votes of C for PREPARE(view 1, seq 10), after a vote
    of B. *)
Lemma addVote_idempotent_witness :
  let m := mkPrepare 1 10 "d" in
  let s := final (Prepares.addVote m "B" ∅) in
  (1 ≤ 3)%nat ∧
  times 3 (Prepares.addVote m "C") s = Prepares.addVote m "C" s ∧
  outcome (Prepares.addVote m "C" s) = Ok tt.
Proof.
  intros m s. split; [lia|].
  apply (addVote_idempotent 3 "C"). lia.
Defined.

(** ** Sequences of calls *)

(** What every call keeps, a sequence of calls keeps. *)
Lemma foldl_preserves {A C : Type} (P : A → Prop) (f : A → C → A) :
  (∀ a c, P a → P (f a c)) → ∀ cs a, P a → P (foldl f a cs).
Proof.
  intros Hstep cs. induction cs as [|c cs IH]; intros a Ha; simpl; [done|].
  by apply IH, Hstep.
Qed.

Lemma Prepares_exec_grows (s : Prepares.t) (c : Prepares.call) :
  grows s (Prepares.exec s c).
Proof.
  destruct c; cbn [Prepares.exec].
  - apply addMsg_grows.
  - unfold Prepares.hasPrepare. rewrite hasMsg_final. apply grows_refl.
  - unfold Prepares.hasPrepareFrom. rewrite hasVote_final. apply grows_refl.
  - rewrite hasEnoughVotes_final. apply grows_refl.
  - unfold Prepares.hasQuorum. rewrite hasEnoughVotes_final. apply grows_refl.
Qed.

Lemma Commits_exec_grows (s : Commits.t) (c : Commits.call) :
  grows s (Commits.exec s c).
Proof.
  destruct c; cbn [Commits.exec].
  - apply addMsg_grows.
  - unfold Commits.hasCommit. rewrite hasMsg_final. apply grows_refl.
  - unfold Commits.hasCommitFrom. rewrite hasVote_final. apply grows_refl.
  - rewrite hasEnoughVotes_final. apply grows_refl.
  - unfold Commits.hasQuorum. rewrite hasEnoughVotes_final. apply grows_refl.
Qed.

(** C5: in the [Prepares] and [Commits] trackers a quorum is never lost.
    From every state (so from every reachable one) in which
    [hasQuorum m f] answers true, after any sequence of calls of the
    public methods, on any keys and from any voters, [hasQuorum m f]
    still answers true. *)
Theorem hasQuorum_monotone (f : Z) :
  (∀ (s : Prepares.t) (cs : list Prepares.call) (m : Prepare),
     Prepares.hasQuorum m f s = (Ok true, s) →
     Prepares.hasQuorum m f (Prepares.run cs s) = (Ok true, Prepares.run cs s)) ∧
  (∀ (s : Commits.t) (cs : list Commits.call) (m : Commit),
     Commits.hasQuorum m f s = (Ok true, s) →
     Commits.hasQuorum m f (Commits.run cs s) = (Ok true, Commits.run cs s)).
Proof.
  split; intros s cs m; apply hasEnoughVotes_grows.
  - apply (foldl_preserves (grows s)); [|apply grows_refl].
    intros a c Ha. eapply grows_trans; [done|apply Prepares_exec_grows].
  - apply (foldl_preserves (grows s)); [|apply grows_refl].
    intros a c Ha. eapply grows_trans; [done|apply Commits_exec_grows].
Qed.

(** C5 after B and C voted PREPARE(view 1, seq 10): the quorum for
    [f = 1] survives a repeated vote, a vote on another key, a query and
    a further vote. *)
Lemma hasQuorum_monotone_witness :
  let m := mkPrepare 1 10 "d" in
  let s := Prepares.run [Prepares.AddVote m "B"; Prepares.AddVote m "C"] ∅ in
  let cs := [Prepares.AddVote m "C"; Prepares.AddVote (mkPrepare 1 11 "e") "B";
             Prepares.HasPrepareFrom m "A"; Prepares.AddVote m "D"] in
  Prepares.hasQuorum m 1 s = (Ok true, s) ∧
  Prepares.hasQuorum m 1 (Prepares.run cs s) = (Ok true, Prepares.run cs s).
Proof.
  intros m s cs. split; [reflexivity|].
  apply (hasQuorum_monotone 1). reflexivity.
Defined.

(** ** Discarding a view *)

(** In the [InstanceChanges] tracker [pop v] returns without raising;
    afterwards [hasView v] answers false, and a vote then cast by a
    message for view [v] files a new record holding that voter alone.
    When [v] has no record [pop v] changes nothing, and the record of
    every other view is always left as it was. *)
Theorem InstanceChanges_pop_discards
    (s : InstanceChanges.t) (v : Z) (m : InstanceChange) (x : string) :
  let s' := final (InstanceChanges.pop v s) in
  outcome (InstanceChanges.pop v s) = Ok tt ∧
  InstanceChanges.hasView (Int v) s' = (Ok false, s') ∧
  (viewNo m = v →
   InstanceChanges.addVote (Obj m) x s' =
     (Ok tt, <[v := mkInsChgVotes v {[x]}]> s')) ∧
  (s !! v = None → InstanceChanges.pop v s = (Ok tt, s)) ∧
  (∀ v', v' ≠ v → s' !! v' = s !! v').
Proof.
  intros s'. subst s'. unfold InstanceChanges.pop, bind, dict_pop, ret. simpl.
  split; [done|]. split; [|split; [|split]].
  - unfold InstanceChanges.hasView. rewrite (hasMsg_run _ v) by done.
    rewrite lookup_delete_eq. by rewrite bool_decide_eq_false_2 by (by intros [? ?]).
  - intros <-. unfold InstanceChanges.addVote.
    rewrite (addMsg_absent _ _ (viewNo m) (mkInsChgVotes (viewNo m) ∅))
      by (done || apply lookup_delete_eq).
    simpl. by rewrite (right_id_L ∅ (∪)).
  - intros Hs. by rewrite delete_id.
  - intros v' Hne. by rewrite lookup_delete_ne.
Qed.

(** View 3 voted by A and B, discarded, then voted by C through a
    message; and a discard of view 4, which has no record. *)
Lemma InstanceChanges_pop_discards_witness :
  let m := mkInstanceChange 3 in
  let s := InstanceChanges.run
             [InstanceChanges.AddVote (Obj m) "A";
              InstanceChanges.AddVote (Obj m) "B"] ∅ in
  let s' := final (InstanceChanges.pop 3 s) in
  (viewNo m = 3 ∧
   InstanceChanges.addVote (Obj m) "C" s' =
     (Ok tt, <[3 := mkInsChgVotes 3 {["C"%string]}]> s')) ∧
  (s !! 4 = None ∧ InstanceChanges.pop 4 s = (Ok tt, s)) ∧
  (4 ≠ 3 ∧ final (InstanceChanges.pop 3 s) !! 4 = s !! 4).
Proof.
  intros m s s'.
  pose proof (InstanceChanges_pop_discards s 3 m "C") as (_ & _ & Hadd & _ & Hoth).
  pose proof (InstanceChanges_pop_discards s 4 m "C") as (_ & _ & _ & Habs & _).
  split; [split; [reflexivity|apply Hadd; reflexivity]|].
  split; [split; [reflexivity|apply Habs; reflexivity]|].
  split; [lia|apply Hoth; lia].
Defined.

(** C6: after [pop v] a vote for view [v] given as the raw view number
    files no record.  [pop v] leaves no record for [v], so [addVote(v, x)]
    reaches [newVoteMsg] with an [int], raises [AttributeError] and leaves
    the tracker without a record for [v]; the same vote given as a message
    returns and files a record holding that voter alone.  So it is for
    view 3 voted by A and B, discarded, then voted by C. *)
Theorem InstanceChanges_addVote_int_after_pop :
  (∀ (s : InstanceChanges.t) (v : Z) (x : string),
     let s' := final (InstanceChanges.pop v s) in
     InstanceChanges.addVote (Int v) x s' = (Raise AttributeError, s') ∧
     InstanceChanges.hasView (Int v) s' = (Ok false, s') ∧
     InstanceChanges.addVote (Obj (mkInstanceChange v)) x s' =
       (Ok tt, <[v := mkInsChgVotes v {[x]}]> s')) ∧
  (let s := InstanceChanges.run
              [InstanceChanges.AddVote (Obj (mkInstanceChange 3)) "A";
               InstanceChanges.AddVote (Obj (mkInstanceChange 3)) "B"] ∅ in
   let s' := final (InstanceChanges.pop 3 s) in
   InstanceChanges.pop 3 s = (Ok tt, ∅) ∧
   InstanceChanges.addVote (Int 3) "C" s' = (Raise AttributeError, ∅) ∧
   InstanceChanges.addVote (Obj (mkInstanceChange 3)) "C" s' =
     (Ok tt, {[3 := mkInsChgVotes 3 {["C"%string]}]})).
Proof.
  split.
  - intros s v x s'. subst s'.
    change (final (InstanceChanges.pop v s)) with (delete v s).
    unfold InstanceChanges.addVote, InstanceChanges.hasView.
    rewrite (addMsg_absent_raise (Int v) x v AttributeError)
      by (done || apply lookup_delete_eq).
    rewrite (hasMsg_run _ v), lookup_delete_eq by done.
    rewrite (addMsg_absent (Obj (mkInstanceChange v)) x v (mkInsChgVotes v ∅))
      by (done || apply lookup_delete_eq).
    split; [done|]. split; [by rewrite bool_decide_eq_false_2 by (by intros [? ?])|].
    simpl. by rewrite (right_id_L ∅ (∪)).
  - cbv zeta. split; [|split]; vm_compute; reflexivity.
Qed.

(** ** Keys without a record *)

(** C7: in each of the three trackers, for a key without a record, every
    voter and every required count (0 included), the record query, the
    vote query and the count query all return false, none raises and none
    changes the tracker.  For [InstanceChanges] the key may be given in
    either form. *)
Theorem absent_key_queries (x : string) (c : Z) :
  (∀ (s : Prepares.t) (m : Prepare),
     s !! (viewNo m, ppSeqNo m) = None →
     Prepares.hasPrepare m s = (Ok false, s) ∧
     Prepares.hasPrepareFrom m x s = (Ok false, s) ∧
     hasEnoughVotes m c s = (Ok false, s)) ∧
  (∀ (s : Commits.t) (m : Commit),
     s !! (viewNo m, ppSeqNo m) = None →
     Commits.hasCommit m s = (Ok false, s) ∧
     Commits.hasCommitFrom m x s = (Ok false, s) ∧
     hasEnoughVotes m c s = (Ok false, s)) ∧
  (∀ (s : InstanceChanges.t) (a : view_arg) (v : Z),
     getKey a = Ok v → s !! v = None →
     InstanceChanges.hasView a s = (Ok false, s) ∧
     InstanceChanges.hasInstChngFrom a x s = (Ok false, s) ∧
     hasEnoughVotes a c s = (Ok false, s)).
Proof.
  split; [|split].
  - intros s m Hs. by apply (absent_queries m (viewNo m, ppSeqNo m)).
  - intros s m Hs. by apply (absent_queries m (viewNo m, ppSeqNo m)).
  - intros s a v Hk Hs. by apply (absent_queries a v).
Qed.

(** C7 at a count of 0 for PREPARE(view 1, seq 6) in a tracker that
    only has votes for (view 1, seq 5). *)
Lemma absent_key_queries_witness :
  let s := final (Prepares.addVote (mkPrepare 1 5 "d") "A" ∅) in
  let m := mkPrepare 1 6 "d" in
  s !! (viewNo m, ppSeqNo m) = None ∧
  Prepares.hasPrepare m s = (Ok false, s) ∧
  Prepares.hasPrepareFrom m "A" s = (Ok false, s) ∧
  hasEnoughVotes m 0 s = (Ok false, s).
Proof.
  intros s m. split; [reflexivity|].
  apply (absent_key_queries "A" 0). reflexivity.
Defined.

(** ** Votes under other keys *)
Section TrackedMsgs_frame.
Context {Msg Key Rec : Type} `{Countable Key} `{HasVoters Rec}.
Context `{!TrackedMsgs Msg Key Rec}.
Implicit Types (s : gmap Key Rec) (m : Msg) (k : Key).

(** The queries about a key read the record of that key and no other. *)
Lemma same_record_same_answers m k s s' :
  getKey m = Ok k → s' !! k = s !! k →
  outcome (hasMsg m s') = outcome (hasMsg m s) ∧
  (∀ y, outcome (hasVote m y s') = outcome (hasVote m y s)) ∧
  (∀ c, outcome (hasEnoughVotes m c s') = outcome (hasEnoughVotes m c s)).
Proof.
  intros Hk Hs. split; [|split]; intros.
  - by rewrite !(hasMsg_run _ k), Hs.
  - by rewrite !(hasVote_run _ _ k), Hs.
  - by rewrite !(hasEnoughVotes_run _ _ k), Hs.
Qed.

Lemma addMsg_same_answers m m' x k k' s :
  getKey m = Ok k → getKey m' = Ok k' → k' ≠ k →
  final (addMsg m x s) !! k' = s !! k' ∧
  outcome (hasMsg m' (final (addMsg m x s))) = outcome (hasMsg m' s) ∧
  (∀ y, outcome (hasVote m' y (final (addMsg m x s))) = outcome (hasVote m' y s)) ∧
  (∀ c, outcome (hasEnoughVotes m' c (final (addMsg m x s))) =
        outcome (hasEnoughVotes m' c s)).
Proof.
  intros Hk Hk' Hne.
  assert (final (addMsg m x s) !! k' = s !! k') as Hs
    by (by apply (addMsg_other _ _ k)).
  split; [done|]. by apply (same_record_same_answers _ k').
Qed.
End TrackedMsgs_frame.

(** C8: in each of the three trackers, [addVote] for a message of key [k]
    leaves the record of every other key [k'] as it was, and with it the
    answers of the record query, the vote query, the count query and
    [hasQuorum] for [k'].  In particular votes under (view 1, seq 5)
    change no answer for (view 1, seq 6) or (view 2, seq 5). *)
Theorem addVote_key_isolation (x y : string) (c f : Z) :
  (∀ (s : Prepares.t) (m m' : Prepare),
     (viewNo m', ppSeqNo m') ≠ (viewNo m, ppSeqNo m) →
     let s' := final (Prepares.addVote m x s) in
     s' !! (viewNo m', ppSeqNo m') = s !! (viewNo m', ppSeqNo m') ∧
     outcome (Prepares.hasPrepare m' s') = outcome (Prepares.hasPrepare m' s) ∧
     outcome (Prepares.hasPrepareFrom m' y s') =
       outcome (Prepares.hasPrepareFrom m' y s) ∧
     outcome (hasEnoughVotes m' c s') = outcome (hasEnoughVotes m' c s) ∧
     outcome (Prepares.hasQuorum m' f s') = outcome (Prepares.hasQuorum m' f s)) ∧
  (∀ (s : Commits.t) (m m' : Commit),
     (viewNo m', ppSeqNo m') ≠ (viewNo m, ppSeqNo m) →
     let s' := final (Commits.addVote m x s) in
     s' !! (viewNo m', ppSeqNo m') = s !! (viewNo m', ppSeqNo m') ∧
     outcome (Commits.hasCommit m' s') = outcome (Commits.hasCommit m' s) ∧
     outcome (Commits.hasCommitFrom m' y s') =
       outcome (Commits.hasCommitFrom m' y s) ∧
     outcome (hasEnoughVotes m' c s') = outcome (hasEnoughVotes m' c s) ∧
     outcome (Commits.hasQuorum m' f s') = outcome (Commits.hasQuorum m' f s)) ∧
  (∀ (s : InstanceChanges.t) (a a' : view_arg) (v v' : Z),
     getKey a = Ok v → getKey a' = Ok v' → v' ≠ v →
     let s' := final (InstanceChanges.addVote a x s) in
     s' !! v' = s !! v' ∧
     outcome (InstanceChanges.hasView a' s') = outcome (InstanceChanges.hasView a' s) ∧
     outcome (InstanceChanges.hasInstChngFrom a' y s') =
       outcome (InstanceChanges.hasInstChngFrom a' y s) ∧
     outcome (hasEnoughVotes a' c s') = outcome (hasEnoughVotes a' c s) ∧
     outcome (InstanceChanges.hasQuorum a' f s') =
       outcome (InstanceChanges.hasQuorum a' f s)) ∧
  (∀ (s : Prepares.t) (m m' : Prepare),
     (viewNo m, ppSeqNo m) = (1, 5) →
     (viewNo m', ppSeqNo m') = (1, 6) ∨ (viewNo m', ppSeqNo m') = (2, 5) →
     let s' := final (Prepares.addVote m x s) in
     outcome (Prepares.hasPrepareFrom m' y s') =
       outcome (Prepares.hasPrepareFrom m' y s) ∧
     outcome (Prepares.hasQuorum m' f s') = outcome (Prepares.hasQuorum m' f s)).
Proof.
  assert (∀ (s : Prepares.t) (m m' : Prepare),
     (viewNo m', ppSeqNo m') ≠ (viewNo m, ppSeqNo m) →
     let s' := final (Prepares.addVote m x s) in
     s' !! (viewNo m', ppSeqNo m') = s !! (viewNo m', ppSeqNo m') ∧
     outcome (Prepares.hasPrepare m' s') = outcome (Prepares.hasPrepare m' s) ∧
     outcome (Prepares.hasPrepareFrom m' y s') =
       outcome (Prepares.hasPrepareFrom m' y s) ∧
     outcome (hasEnoughVotes m' c s') = outcome (hasEnoughVotes m' c s) ∧
     outcome (Prepares.hasQuorum m' f s') = outcome (Prepares.hasQuorum m' f s))
    as HP.
  { intros s m m' Hne s'.
    destruct (addMsg_same_answers m m' x (viewNo m, ppSeqNo m)
                (viewNo m', ppSeqNo m') s) as (Hs & Hm & Hv & He); [done..|].
    split; [done|]. split; [done|]. split; [apply Hv|]. split; apply He. }
  split; [done|]. split; [|split].
  - intros s m m' Hne s'.
    destruct (addMsg_same_answers m m' x (viewNo m, ppSeqNo m)
                (viewNo m', ppSeqNo m') s) as (Hs & Hm & Hv & He); [done..|].
    split; [done|]. split; [done|]. split; [apply Hv|]. split; apply He.
  - intros s a a' v v' Hk Hk' Hne s'.
    destruct (addMsg_same_answers a a' x v v' s) as (Hs & Hm & Hv & He); [done..|].
    split; [done|]. split; [done|]. split; [apply Hv|]. split; apply He.
  - intros s m m' Hm Hm' s'.
    destruct (HP s m m') as (_ & _ & Hv & _ & Hq); [|done].
    rewrite Hm. by destruct Hm' as [-> | ->].
Qed.

(** C8 at a vote of A for PREPARE(view 1, seq 5) in a tracker where B
    and C voted for (view 1, seq 6): the quorum of the latter stays. *)
Lemma addVote_key_isolation_witness :
  let m := mkPrepare 1 5 "d" in
  let m' := mkPrepare 1 6 "e" in
  let s := Prepares.run [Prepares.AddVote m' "B"; Prepares.AddVote m' "C"] ∅ in
  let s' := final (Prepares.addVote m "A" s) in
  (viewNo m, ppSeqNo m) = (1, 5) ∧
  ((viewNo m', ppSeqNo m') = (1, 6) ∨ (viewNo m', ppSeqNo m') = (2, 5)) ∧
  outcome (Prepares.hasPrepareFrom m' "A" s') =
    outcome (Prepares.hasPrepareFrom m' "A" s) ∧
  outcome (Prepares.hasQuorum m' 1 s') = outcome (Prepares.hasQuorum m' 1 s).
Proof.
  intros m m' s s'. split; [reflexivity|]. split; [left; reflexivity|].
  apply (addVote_key_isolation "A" "A" 0 1); [reflexivity|left; reflexivity].
Defined.

(** ** Invariants of the reachable states *)

Lemma Prepares_exec_populated (s : Prepares.t) (c : Prepares.call) :
  populated s → populated (Prepares.exec s c).
Proof.
  intros Hp. destruct c; cbn [Prepares.exec].
  - by apply addMsg_populated.
  - unfold Prepares.hasPrepare. by rewrite hasMsg_final.
  - unfold Prepares.hasPrepareFrom. by rewrite hasVote_final.
  - by rewrite hasEnoughVotes_final.
  - unfold Prepares.hasQuorum. by rewrite hasEnoughVotes_final.
Qed.

Lemma Commits_exec_populated (s : Commits.t) (c : Commits.call) :
  populated s → populated (Commits.exec s c).
Proof.
  intros Hp. destruct c; cbn [Commits.exec].
  - by apply addMsg_populated.
  - unfold Commits.hasCommit. by rewrite hasMsg_final.
  - unfold Commits.hasCommitFrom. by rewrite hasVote_final.
  - by rewrite hasEnoughVotes_final.
  - unfold Commits.hasQuorum. by rewrite hasEnoughVotes_final.
Qed.

Lemma InstanceChanges_pop_run (k : Z) (s : InstanceChanges.t) :
  InstanceChanges.pop k s = (Ok tt, delete k s).
Proof. reflexivity. Qed.

Lemma InstanceChanges_exec_populated
    (s : InstanceChanges.t) (c : InstanceChanges.call) :
  populated s → populated (InstanceChanges.exec s c).
Proof.
  intros Hp. destruct c; cbn [InstanceChanges.exec].
  - by apply addMsg_populated.
  - unfold InstanceChanges.hasView. by rewrite hasMsg_final.
  - unfold InstanceChanges.hasInstChngFrom. by rewrite hasVote_final.
  - by rewrite hasEnoughVotes_final.
  - unfold InstanceChanges.hasQuorum. by rewrite hasEnoughVotes_final.
  - rewrite InstanceChanges_pop_run. cbn [final snd].
    intros k r [_ Hs]%lookup_delete_Some. by apply (Hp k).
Qed.

Lemma populated_size {Key Rec : Type} `{Countable Key} `{HasVoters Rec}
    (s : gmap Key Rec) (k : Key) (r : Rec) :
  populated s → s !! k = Some r → (1 ≤ size (voters r))%nat.
Proof.
  intros Hp Hs. apply Hp in Hs.
  assert (size (voters r) ≠ 0%nat) by (by intros ?%size_empty_iff%leibniz_equiv).
  lia.
Qed.

(** C9: in every state that a tracker created empty reaches through calls
    of its public methods ([addVote], the queries, and [pop] for
    [InstanceChanges]), every record has at least one voter; so whenever
    the record query answers true, the count query for 1 answers true. *)
Theorem reachable_records_have_voters :
  (∀ cs : list Prepares.call,
     let s := Prepares.run cs ∅ in
     (∀ k r, s !! k = Some r → (1 ≤ size (voters r))%nat) ∧
     (∀ m, Prepares.hasPrepare m s = (Ok true, s) →
           hasEnoughVotes m 1 s = (Ok true, s))) ∧
  (∀ cs : list Commits.call,
     let s := Commits.run cs ∅ in
     (∀ k r, s !! k = Some r → (1 ≤ size (voters r))%nat) ∧
     (∀ m, Commits.hasCommit m s = (Ok true, s) →
           hasEnoughVotes m 1 s = (Ok true, s))) ∧
  (∀ cs : list InstanceChanges.call,
     let s := InstanceChanges.run cs ∅ in
     (∀ k r, s !! k = Some r → (1 ≤ size (voters r))%nat) ∧
     (∀ a, InstanceChanges.hasView a s = (Ok true, s) →
           hasEnoughVotes a 1 s = (Ok true, s))).
Proof.
  split; [|split]; intros cs s.
  - assert (populated s) as Hp
      by (apply (foldl_preserves populated);
          [intros; by apply Prepares_exec_populated|apply populated_empty]).
    split; [intros k r; by apply populated_size|].
    intros m. by apply populated_enough.
  - assert (populated s) as Hp
      by (apply (foldl_preserves populated);
          [intros; by apply Commits_exec_populated|apply populated_empty]).
    split; [intros k r; by apply populated_size|].
    intros m. by apply populated_enough.
  - assert (populated s) as Hp
      by (apply (foldl_preserves populated);
          [intros; by apply InstanceChanges_exec_populated|apply populated_empty]).
    split; [intros k r; by apply populated_size|].
    intros a. by apply populated_enough.
Qed.

(** C9 at an [InstanceChanges] tracker after votes for views 3 and 4, a
    failed vote by raw view number 5 and a discard of view 4. *)
Lemma reachable_records_have_voters_witness :
  let cs := [InstanceChanges.AddVote (Obj (mkInstanceChange 3)) "A";
             InstanceChanges.AddVote (Obj (mkInstanceChange 4)) "B";
             InstanceChanges.AddVote (Int 5) "C";
             InstanceChanges.Pop 4] in
  let s := InstanceChanges.run cs ∅ in
  s !! 3 = Some (mkInsChgVotes 3 {["A"%string]}) ∧
  (1 ≤ size (voters (mkInsChgVotes 3 {["A"%string]})))%nat ∧
  InstanceChanges.hasView (Int 3) s = (Ok true, s) ∧
  hasEnoughVotes (Int 3) 1 s = (Ok true, s).
Proof.
  intros cs s.
  pose proof reachable_records_have_voters as (_ & _ & HI).
  destruct (HI cs) as [Hsize Henough].
  split; [reflexivity|]. split; [apply (Hsize 3); reflexivity|].
  split; [reflexivity|]. apply Henough. reflexivity.
Defined.

Lemma InstanceChanges_exec_filed
    (s : InstanceChanges.t) (c : InstanceChanges.call) :
  InstanceChanges.filed s → InstanceChanges.filed (InstanceChanges.exec s c).
Proof.
  intros Hf. destruct c as [a x|a|a x|a n|a f|k0]; cbn [InstanceChanges.exec].
  - unfold InstanceChanges.addVote.
    destruct (addMsg_cases a x s) as [k0 r0 Hk0 Hs0|k0 r0 Hk0 Hs0 Hr|e];
      cbn [final snd]; [| |done]; intros k r.
    + destruct (decide (k0 = k)) as [->|Hne].
      * rewrite lookup_insert_eq. intros [= <-]. by apply (Hf k r0).
      * rewrite lookup_insert_ne by done. apply Hf.
    + destruct (decide (k0 = k)) as [->|Hne].
      * rewrite lookup_insert_eq. intros [= <-].
        destruct a as [v|m]; simpl in *; by simplify_eq.
      * rewrite lookup_insert_ne by done. apply Hf.
  - unfold InstanceChanges.hasView. by rewrite hasMsg_final.
  - unfold InstanceChanges.hasInstChngFrom. by rewrite hasVote_final.
  - by rewrite hasEnoughVotes_final.
  - unfold InstanceChanges.hasQuorum. by rewrite hasEnoughVotes_final.
  - rewrite InstanceChanges_pop_run. cbn [final snd].
    intros k r [_ Hs]%lookup_delete_Some. by apply (Hf k).
Qed.

(** C10: in every state that an [InstanceChanges] tracker created empty
    reaches through [addVote], [pop] and the queries, every record names
    in its [viewNo] field the view number it is filed under; every call
    keeps this so. *)
Theorem InstanceChanges_records_filed_by_viewNo
    (cs : list InstanceChanges.call) (k : Z) (r : InsChgVotes) :
  InstanceChanges.run cs ∅ !! k = Some r → viewNo r = k.
Proof.
  revert k r. change (InstanceChanges.filed (InstanceChanges.run cs ∅)).
  apply (foldl_preserves InstanceChanges.filed).
  - intros s c. apply InstanceChanges_exec_filed.
  - intros k r Hs. by rewrite lookup_empty in Hs.
Qed.

(** C10 at view 3 voted by A and B after view 4 was voted and
    discarded. *)
Lemma InstanceChanges_records_filed_by_viewNo_witness :
  let cs := [InstanceChanges.AddVote (Obj (mkInstanceChange 4)) "A";
             InstanceChanges.AddVote (Obj (mkInstanceChange 3)) "A";
             InstanceChanges.Pop 4;
             InstanceChanges.AddVote (Int 3) "B"] in
  let r := mkInsChgVotes 3 {["A"; "B"]}%string in
  InstanceChanges.run cs ∅ !! 3 = Some r ∧ viewNo r = 3.
Proof.
  intros cs r. split; [vm_compute; reflexivity|].
  apply (InstanceChanges_records_filed_by_viewNo cs 3 r).
  vm_compute; reflexivity.
Defined.


(** ** Votes and what the queries then say *)
Section TrackedMsgs_votes.
Context {Msg Key Rec : Type} `{Countable Key} `{HasVoters Rec}.
Context `{!TrackedMsgs Msg Key Rec}.
Implicit Types (s : gmap Key Rec) (m : Msg) (k : Key) (r : Rec) (x y : string).

Lemma hasVote_voters_at m x k s :
  getKey m = Ok k →
  hasVote m x s = (Ok (bool_decide (x ∈ voters_at k s)), s).
Proof.
  intros Hk. rewrite (hasVote_run _ _ k) by done. unfold voters_at.
  destruct (s !! k) as [r|]; cbn [from_option]; [done|].
  by rewrite bool_decide_eq_false_2 by set_solver.
Qed.

Lemma hasEnoughVotes_voters_at m c k s :
  getKey m = Ok k →
  hasEnoughVotes m c s =
    (Ok (bool_decide (is_Some (s !! k)) &&
         bool_decide (c ≤ Z.of_nat (size (voters_at k s)))), s).
Proof.
  intros Hk. rewrite (hasEnoughVotes_run _ _ k) by done. unfold voters_at.
  destruct (s !! k) as [r|]; cbn [from_option].
  - rewrite bool_decide_eq_true_2 by eauto. cbn [andb]. do 2 f_equal.
    case_bool_decide; lia.
  - by rewrite bool_decide_eq_false_2 by (by intros [? ?]).
Qed.

Lemma addMsg_voters_at m x k r0 s :
  getKey m = Ok k → newVoteMsg m = Ok r0 → voters r0 = ∅ →
  voters_at k (final (addMsg m x s)) = {[x]} ∪ voters_at k s.
Proof.
  intros Hk Hr0 Hv0. rewrite (addMsg_ok _ _ k r0) by done. cbn [final snd].
  unfold voters_at. rewrite lookup_insert_eq. cbn [from_option].
  rewrite voters_voters_add. destruct (s !! k) as [r|]; cbn [default from_option];
    [done|by rewrite Hv0].
Qed.

Lemma addMsg_voters_at_other m x k k' s :
  getKey m = Ok k → k ≠ k' →
  voters_at k' (final (addMsg m x s)) = voters_at k' s.
Proof.
  intros Hk Hne. unfold voters_at. by rewrite (addMsg_other _ _ k).
Qed.

(** A vote is accepted only under a key, into the record found there or
    into a new one. *)
Lemma addMsg_accepted m x s s' :
  addMsg m x s = (Ok tt, s') →
  ∃ k r, getKey m = Ok k ∧ s' = <[k := voters_add x r]> s ∧
         (s !! k = Some r ∨ s !! k = None ∧ newVoteMsg m = Ok r).
Proof.
  intros Hrun. destruct (addMsg_cases m x s) as [k r Hk Hs|k r Hk Hs Hr|e];
    simplify_eq; exists k, r; eauto.
Qed.

(** X1: a vote that [addMsg] accepts, in whatever form its message is
    given, is seen at once by every query on that message: the record
    exists, the voter is in it, and one vote is counted. *)
Theorem addMsg_then_queries m x s s' :
  addMsg m x s = (Ok tt, s') →
  hasMsg m s' = (Ok true, s') ∧
  hasVote m x s' = (Ok true, s') ∧
  hasEnoughVotes m 1 s' = (Ok true, s').
Proof.
  intros (k & r & Hk & -> & _)%addMsg_accepted.
  rewrite (hasMsg_run _ k), (hasVote_run _ _ k), (hasEnoughVotes_run _ _ k) by done.
  rewrite lookup_insert_eq.
  assert (x ∈ voters (voters_add x r)) as Hx
    by (rewrite voters_voters_add; set_solver).
  split; [by rewrite bool_decide_eq_true_2 by eauto|].
  split; [by rewrite bool_decide_eq_true_2|].
  do 2 f_equal.
  assert (size (voters (voters_add x r)) ≠ 0%nat)
    by (intros ?%size_empty_iff; set_solver).
  lia.
Qed.

(** X2: one accepted vote, in whatever form its message is given, adds
    exactly its voter to the tally of its key, where new records start
    without voters: the count goes up by one for a new voter and stays
    for a known one, and what the vote query says about any other voter
    is unchanged. *)
Theorem addMsg_tally m x k s s' :
  getKey m = Ok k → (∀ r0, newVoteMsg m = Ok r0 → voters r0 = ∅) →
  addMsg m x s = (Ok tt, s') →
  voters_at k s' = {[x]} ∪ voters_at k s ∧
  size (voters_at k s') =
    (if bool_decide (x ∈ voters_at k s)
     then size (voters_at k s) else S (size (voters_at k s))) ∧
  (∀ y, y ≠ x → hasVote m y s' = (outcome (hasVote m y s), s')).
Proof.
  intros Hk Hnew (k' & r & Hk' & -> & Hr)%addMsg_accepted.
  rewrite Hk in Hk'. injection Hk' as <-.
  assert (voters_at k (<[k := voters_add x r]> s) = {[x]} ∪ voters_at k s) as Hv.
  { unfold voters_at. rewrite lookup_insert_eq. cbn [from_option].
    rewrite voters_voters_add. destruct Hr as [->|[-> Hr]]; cbn [from_option]; [done|].
    by rewrite (Hnew r). }
  split; [done|]. split.
  - rewrite Hv. case_bool_decide as Hx.
    + f_equal. set_solver.
    + rewrite size_union by set_solver. by rewrite size_singleton.
  - intros y Hne. rewrite !(hasVote_voters_at _ _ k) by done. rewrite Hv.
    cbn [outcome fst]. do 2 f_equal. apply bool_decide_ext. set_solver.
Qed.

(** X3: on a key without a record, after votes from the voters of a
    non-empty list, the vote query says true exactly for the voters in
    the list and the count query says true exactly for the counts up to
    the number of distinct voters. *)
Theorem for_each_addMsg_tally m l k r0 s :
  getKey m = Ok k → newVoteMsg m = Ok r0 → voters r0 = ∅ →
  s !! k = None → l ≠ [] →
  let s' := final (for_each (addMsg m) l s) in
  for_each (addMsg m) l s = (Ok tt, s') ∧
  (∀ y, hasVote m y s' = (Ok (bool_decide (y ∈ l)), s')) ∧
  (∀ c, hasEnoughVotes m c s' =
        (Ok (bool_decide (c ≤ Z.of_nat (size (list_to_set l : gset string)))), s')).
Proof.
  intros Hk Hr0 Hv0 Hs Hl s'. subst s'.
  destruct (for_each_addMsg m l k r0 s) as (r & Hrun & Hv); [done..|].
  rewrite Hrun. cbn [final snd]. split; [done|].
  rewrite Hs in Hv. cbn [default] in Hv. rewrite Hv0, (right_id_L ∅ (∪)) in Hv.
  split.
  - intros y. rewrite (hasVote_run _ _ k), lookup_insert_eq, Hv by done.
    do 2 f_equal. apply bool_decide_ext. by rewrite elem_of_list_to_set.
  - intros c. rewrite (hasEnoughVotes_run _ _ k), lookup_insert_eq, Hv by done.
    do 2 f_equal. case_bool_decide; lia.
Qed.

(** X5: a count that is reached is reached for every smaller count, and
    only where there is a record. *)
Theorem hasEnoughVotes_downward m c c' s :
  hasEnoughVotes m c s = (Ok true, s) → c' ≤ c →
  hasEnoughVotes m c' s = (Ok true, s) ∧ hasMsg m s = (Ok true, s).
Proof.
  destruct (getKey m) as [k|e] eqn:Hk.
  - rewrite !(hasEnoughVotes_run _ _ k), (hasMsg_run _ k) by done.
    destruct (s !! k) as [r|]; [|done]. intros Hq Hle. split.
    + do 2 f_equal. simplify_eq. lia.
    + by rewrite bool_decide_eq_true_2 by eauto.
  - unfold hasEnoughVotes, bind, lift. by rewrite Hk.
Qed.

(** X6: a count of zero or less asks no more than whether there is a
    record; without a record the answer is still false. *)
Theorem hasEnoughVotes_nonpositive m c s :
  c ≤ 0 → hasEnoughVotes m c s = hasMsg m s.
Proof.
  intros Hc. destruct (getKey m) as [k|e] eqn:Hk.
  - rewrite (hasEnoughVotes_run _ _ k), (hasMsg_run _ k) by done.
    destruct (s !! k) as [r|].
    + rewrite bool_decide_eq_true_2 by eauto. do 2 f_equal.
      rewrite Z.geb_leb. apply Z.leb_le. lia.
    + by rewrite bool_decide_eq_false_2 by (by intros [? ?]).
  - unfold hasEnoughVotes, hasMsg, bind, lift. by rewrite Hk.
Qed.
End TrackedMsgs_votes.

(** X1 at a vote of B by raw view number 3, in a tracker where A voted
    for view 3 by a message. *)
Lemma addMsg_then_queries_witness :
  let s := final (InstanceChanges.addVote (Obj (mkInstanceChange 3)) "A" ∅) in
  let s' := final (InstanceChanges.addVote (Int 3) "B" s) in
  InstanceChanges.addVote (Int 3) "B" s = (Ok tt, s') ∧
  InstanceChanges.hasView (Int 3) s' = (Ok true, s') ∧
  InstanceChanges.hasInstChngFrom (Int 3) "B" s' = (Ok true, s') ∧
  hasEnoughVotes (Int 3) 1 s' = (Ok true, s').
Proof.
  intros s s'. split; [reflexivity|].
  apply (addMsg_then_queries (Int 3) "B" s s'). reflexivity.
Defined.

(** X2 at view 3 voted by B through a message, then voted by raw view
    number: by B again, and by C. *)
Lemma addMsg_tally_witness :
  let s := final (InstanceChanges.addVote (Obj (mkInstanceChange 3)) "B" ∅) in
  let sB := final (InstanceChanges.addVote (Int 3) "B" s) in
  let sC := final (InstanceChanges.addVote (Int 3) "C" s) in
  (getKey (Int 3) = Ok 3 ∧
   (∀ r0, newVoteMsg (Int 3) = Ok r0 → voters r0 = ∅) ∧
   InstanceChanges.addVote (Int 3) "B" s = (Ok tt, sB) ∧
   InstanceChanges.addVote (Int 3) "C" s = (Ok tt, sC)) ∧
  size (voters_at 3 sB) = 1%nat ∧
  size (voters_at 3 sC) = 2%nat ∧
  ("B" ≠ "C" ∧
   InstanceChanges.hasInstChngFrom (Int 3) "B" sC = (Ok true, sC)).
Proof.
  intros s sB sC.
  assert (∀ r0 : InsChgVotes, newVoteMsg (Int 3) = Ok r0 → voters r0 = ∅) as Hnew
    by (intros r0; discriminate).
  split; [repeat split; (reflexivity || exact Hnew)|].
  destruct (addMsg_tally (Int 3) "B" 3 s sB) as (_ & HB & _);
    [reflexivity|exact Hnew|reflexivity|].
  destruct (addMsg_tally (Int 3) "C" 3 s sC) as (_ & HC & Hoth);
    [reflexivity|exact Hnew|reflexivity|].
  split; [exact HB|]. split; [exact HC|].
  split; [done|]. apply (Hoth "B"). done.
Defined.

(** X3 at COMMIT(view 1, seq 10) voted by A, B, A and C. *)
Lemma for_each_addMsg_tally_witness :
  let m := mkCommit 1 10 "d" in
  let l := ["A"; "B"; "A"; "C"]%string in
  let s' := final (for_each (Commits.addVote m) l ∅) in
  (getKey m = Ok (1, 10) ∧ newVoteMsg m = Ok (mkThreePhaseVotes ∅) ∧
   voters (mkThreePhaseVotes ∅) = ∅ ∧
   (∅ : Commits.t) !! (1, 10) = None ∧ l ≠ []) ∧
  Commits.hasCommitFrom m "D" s' = (Ok false, s') ∧
  Commits.hasQuorum m 1 s' = (Ok true, s') ∧
  Commits.hasQuorum m 2 s' = (Ok false, s').
Proof.
  intros m l s'. split; [repeat split; done|].
  destruct (for_each_addMsg_tally m l (1, 10) (mkThreePhaseVotes ∅) ∅)
    as (_ & Hvote & Hcount); [done..|].
  split; [apply (Hvote "D")|]. split; [apply (Hcount 3)|apply (Hcount 5)].
Defined.

(** X5 at three COMMIT votes: the quorum for [f = 1] gives the count 2. *)
Lemma hasEnoughVotes_downward_witness :
  let m := mkCommit 1 10 "d" in
  let s := final (for_each (Commits.addVote m) ["A"; "B"; "C"]%string ∅) in
  (Commits.hasQuorum m 1 s = (Ok true, s) ∧ 2 ≤ 3) ∧
  hasEnoughVotes m 2 s = (Ok true, s) ∧ Commits.hasCommit m s = (Ok true, s).
Proof.
  intros m s. split; [split; [reflexivity|lia]|].
  apply (hasEnoughVotes_downward m 3 2 s); [reflexivity|lia].
Defined.

(** X6 at [Prepares.hasQuorum] with [f = 0], with and without a
    record. *)
Lemma hasEnoughVotes_nonpositive_witness :
  let m := mkPrepare 1 10 "d" in
  let s := final (Prepares.addVote m "B" ∅) in
  2 * 0 ≤ 0 ∧
  Prepares.hasQuorum m 0 s = Prepares.hasPrepare m s ∧
  Prepares.hasQuorum m 0 ∅ = Prepares.hasPrepare m ∅.
Proof.
  intros m s. split; [lia|].
  split; apply (hasEnoughVotes_nonpositive m (2 * 0)); lia.
Defined.

(** ** The order of votes *)

Lemma ThreePhaseVotes_voters_add_comm (x y : string) (r : ThreePhaseVotes) :
  voters_add x (voters_add y r) = voters_add y (voters_add x r).
Proof. destruct r as [vs]. simpl. f_equal. set_solver. Qed.

Lemma InsChgVotes_voters_add_comm (x y : string) (r : InsChgVotes) :
  voters_add x (voters_add y r) = voters_add y (voters_add x r).
Proof. destruct r as [v vs]. simpl. f_equal. set_solver. Qed.

Lemma addMsg_commute {Msg Key Rec : Type} `{Countable Key} `{HasVoters Rec}
    `{!TrackedMsgs Msg Key Rec}
    (m1 m2 : Msg) (x y : string) (k1 k2 : Key) (r1 r2 : Rec) (s : gmap Key Rec) :
  (∀ r, voters_add x (voters_add y r) = voters_add y (voters_add x r)) →
  getKey m1 = Ok k1 → getKey m2 = Ok k2 →
  newVoteMsg m1 = Ok r1 → newVoteMsg m2 = Ok r2 → (k1 = k2 → r1 = r2) →
  final (addMsg m2 y (final (addMsg m1 x s))) =
    final (addMsg m1 x (final (addMsg m2 y s))).
Proof.
  intros Hcomm Hk1 Hk2 Hr1 Hr2 Hsame.
  rewrite (addMsg_ok m1 x k1 r1 s), (addMsg_ok m2 y k2 r2 s) by done.
  cbn [final snd].
  rewrite (addMsg_ok m2 y k2 r2), (addMsg_ok m1 x k1 r1) by done.
  cbn [final snd]. destruct (decide (k1 = k2)) as [->|Hne].
  - rewrite !lookup_insert_eq, !insert_insert_eq. cbn [from_option id].
    rewrite Hsame by done. by rewrite Hcomm.
  - rewrite !lookup_insert_ne by done. by apply insert_insert_ne.
Qed.

(** X4: the order of two votes does not matter.  In each tracker, two
    [addVote] calls with messages leave the same tracker in either
    order, whether they are for one key or for two. *)
Theorem addVote_commutes (x y : string) :
  (∀ (s : Prepares.t) (m1 m2 : Prepare),
     final (Prepares.addVote m2 y (final (Prepares.addVote m1 x s))) =
     final (Prepares.addVote m1 x (final (Prepares.addVote m2 y s)))) ∧
  (∀ (s : Commits.t) (m1 m2 : Commit),
     final (Commits.addVote m2 y (final (Commits.addVote m1 x s))) =
     final (Commits.addVote m1 x (final (Commits.addVote m2 y s)))) ∧
  (∀ (s : InstanceChanges.t) (m1 m2 : InstanceChange),
     final (InstanceChanges.addVote (Obj m2) y
              (final (InstanceChanges.addVote (Obj m1) x s))) =
     final (InstanceChanges.addVote (Obj m1) x
              (final (InstanceChanges.addVote (Obj m2) y s)))).
Proof.
  split; [|split]; intros s m1 m2.
  - apply (addMsg_commute m1 m2 x y (viewNo m1, ppSeqNo m1) (viewNo m2, ppSeqNo m2)
             (mkThreePhaseVotes ∅) (mkThreePhaseVotes ∅));
      [apply ThreePhaseVotes_voters_add_comm|done..].
  - apply (addMsg_commute m1 m2 x y (viewNo m1, ppSeqNo m1) (viewNo m2, ppSeqNo m2)
             (mkThreePhaseVotes ∅) (mkThreePhaseVotes ∅));
      [apply ThreePhaseVotes_voters_add_comm|done..].
  - apply (addMsg_commute (Obj m1) (Obj m2) x y (viewNo m1) (viewNo m2)
             (mkInsChgVotes (viewNo m1) ∅) (mkInsChgVotes (viewNo m2) ∅));
      [apply InsChgVotes_voters_add_comm|done..|].
    by intros ->.
Qed.

(** ** Which calls raise *)

(** X7: no public method of [Prepares] or [Commits] ever raises.  In
    every state [addVote] returns [None] and each query returns a
    boolean and leaves the tracker as it is; in particular the guarded
    [self[key]] never raises [KeyError]. *)
Theorem Prepares_Commits_never_raise (x : string) (c f : Z) :
  (∀ (s : Prepares.t) (m : Prepare),
     outcome (Prepares.addVote m x s) = Ok tt ∧
     (∃ b, Prepares.hasPrepare m s = (Ok b, s)) ∧
     (∃ b, Prepares.hasPrepareFrom m x s = (Ok b, s)) ∧
     (∃ b, hasEnoughVotes m c s = (Ok b, s)) ∧
     (∃ b, Prepares.hasQuorum m f s = (Ok b, s))) ∧
  (∀ (s : Commits.t) (m : Commit),
     outcome (Commits.addVote m x s) = Ok tt ∧
     (∃ b, Commits.hasCommit m s = (Ok b, s)) ∧
     (∃ b, Commits.hasCommitFrom m x s = (Ok b, s)) ∧
     (∃ b, hasEnoughVotes m c s = (Ok b, s)) ∧
     (∃ b, Commits.hasQuorum m f s = (Ok b, s))).
Proof.
  split; intros s m.
  - unfold Prepares.addVote, Prepares.hasPrepare, Prepares.hasPrepareFrom,
      Prepares.hasQuorum.
    rewrite (addMsg_ok _ _ (viewNo m, ppSeqNo m) (mkThreePhaseVotes ∅)),
      (hasMsg_run _ (viewNo m, ppSeqNo m)), (hasVote_run _ _ (viewNo m, ppSeqNo m)),
      !(hasEnoughVotes_run _ _ (viewNo m, ppSeqNo m)) by done.
    eauto 10.
  - unfold Commits.addVote, Commits.hasCommit, Commits.hasCommitFrom,
      Commits.hasQuorum.
    rewrite (addMsg_ok _ _ (viewNo m, ppSeqNo m) (mkThreePhaseVotes ∅)),
      (hasMsg_run _ (viewNo m, ppSeqNo m)), (hasVote_run _ _ (viewNo m, ppSeqNo m)),
      !(hasEnoughVotes_run _ _ (viewNo m, ppSeqNo m)) by done.
    eauto 10.
Qed.




(** ** More on discarding a view *)

(** X9: [pop] undoes the first vote for a view: when the view has no
    record, a vote by a message followed by [pop] of that view gives back
    the tracker as it was.  A second [pop] of the same view changes
    nothing more. *)
Theorem InstanceChanges_pop_undoes_first_vote
    (s : InstanceChanges.t) (m : InstanceChange) (x : string) (v : Z) :
  (s !! viewNo m = None →
   final (InstanceChanges.pop (viewNo m)
            (final (InstanceChanges.addVote (Obj m) x s))) = s) ∧
  InstanceChanges.pop v (final (InstanceChanges.pop v s)) =
    (Ok tt, final (InstanceChanges.pop v s)).
Proof.
  split.
  - intros Hs. unfold InstanceChanges.addVote.
    rewrite (addMsg_absent _ _ (viewNo m) (mkInsChgVotes (viewNo m) ∅)) by done.
    rewrite InstanceChanges_pop_run. cbn [final snd].
    by rewrite delete_insert_id.
  - rewrite !InstanceChanges_pop_run. cbn [final snd]. f_equal.
    apply delete_id, lookup_delete_eq.
Qed.

(** X9 at a first vote for view 4 in a tracker that has view 3. *)
Lemma InstanceChanges_pop_undoes_first_vote_witness :
  let s := final (InstanceChanges.addVote (Obj (mkInstanceChange 3)) "A" ∅) in
  let m := mkInstanceChange 4 in
  s !! viewNo m = None ∧
  final (InstanceChanges.pop (viewNo m)
           (final (InstanceChanges.addVote (Obj m) "B" s))) = s.
Proof.
  intros s m. split; [reflexivity|].
  apply (InstanceChanges_pop_undoes_first_vote s m "B" 0). reflexivity.
Defined.

Lemma InstanceChanges_exec_keeps_view
    (s : InstanceChanges.t) (c : InstanceChanges.call) (v : Z) (r : InsChgVotes) :
  c ≠ InstanceChanges.Pop v → s !! v = Some r →
  ∃ r', InstanceChanges.exec s c !! v = Some r' ∧ voters r ⊆ voters r'.
Proof.
  intros Hc Hs. destruct c as [a x|a|a x|a n|a f|k]; cbn [InstanceChanges.exec].
  - by apply (addMsg_grows a x s).
  - unfold InstanceChanges.hasView. rewrite hasMsg_final. by exists r.
  - unfold InstanceChanges.hasInstChngFrom. rewrite hasVote_final. by exists r.
  - rewrite hasEnoughVotes_final. by exists r.
  - unfold InstanceChanges.hasQuorum. rewrite hasEnoughVotes_final. by exists r.
  - rewrite InstanceChanges_pop_run. cbn [final snd]. exists r.
    rewrite lookup_delete_ne by congruence. done.
Qed.

Lemma InstanceChanges_run_keeps_view
    (cs : list InstanceChanges.call) (s : InstanceChanges.t) (v : Z) (r : InsChgVotes) :
  InstanceChanges.Pop v ∉ cs → s !! v = Some r →
  ∃ r', InstanceChanges.run cs s !! v = Some r' ∧ voters r ⊆ voters r'.
Proof.
  induction cs as [|c cs IH] in s, r |- *; intros Hcs Hs.
  - by exists r.
  - apply not_elem_of_cons in Hcs as [Hc Hcs].
    destruct (InstanceChanges_exec_keeps_view s c v r) as (r1 & Hs1 & Hsub1);
      [done..|].
    destruct (IH (InstanceChanges.exec s c) r1) as (r2 & Hs2 & Hsub2); [done..|].
    exists r2. split; [done|]. by transitivity (voters r1).
Qed.

(** X10: in [InstanceChanges] a quorum for a view lasts exactly until
    that view is discarded.  It survives every sequence of calls without
    a [pop] of the view, and right after a [pop] of the view [hasQuorum]
    is false for every [f]. *)
Theorem InstanceChanges_hasQuorum_until_pop
    (s : InstanceChanges.t) (cs : list InstanceChanges.call)
    (a : view_arg) (v : Z) (f : Z) :
  getKey a = Ok v →
  (InstanceChanges.Pop v ∉ cs →
   InstanceChanges.hasQuorum a f s = (Ok true, s) →
   InstanceChanges.hasQuorum a f (InstanceChanges.run cs s) =
     (Ok true, InstanceChanges.run cs s)) ∧
  InstanceChanges.hasQuorum a f (final (InstanceChanges.pop v s)) =
    (Ok false, final (InstanceChanges.pop v s)).
Proof.
  intros Hk. unfold InstanceChanges.hasQuorum. split.
  - intros Hcs. rewrite !(hasEnoughVotes_run _ _ v) by done.
    destruct (s !! v) as [r|] eqn:Hs; [|done]. intros Hq.
    destruct (InstanceChanges_run_keeps_view cs s v r) as (r' & -> & Hsub);
      [done..|].
    do 2 f_equal. apply subseteq_size in Hsub.
    injection Hq as Hq. apply Z.geb_le in Hq. apply Z.geb_le.
    change (icv_voters r) with (voters r) in Hq. lia.
  - rewrite InstanceChanges_pop_run. cbn [final snd].
    by rewrite (hasEnoughVotes_run _ _ v), lookup_delete_eq.
Qed.

(** X10 at view 3 voted by A, B and C: the quorum for [f = 1] survives a
    vote for view 4 and a discard of view 4, and a discard of view 3
    ends it. *)
Lemma InstanceChanges_hasQuorum_until_pop_witness :
  let a := Obj (mkInstanceChange 3) in
  let s := final (for_each (InstanceChanges.addVote a) ["A"; "B"; "C"]%string ∅) in
  let cs := [InstanceChanges.AddVote (Obj (mkInstanceChange 4)) "A";
             InstanceChanges.Pop 4; InstanceChanges.AddVote (Int 3) "D"] in
  (getKey (Int 3) = Ok 3 ∧ (InstanceChanges.Pop 3 ∉ cs) ∧
   InstanceChanges.hasQuorum (Int 3) 1 s = (Ok true, s)) ∧
  InstanceChanges.hasQuorum (Int 3) 1 (InstanceChanges.run cs s) =
    (Ok true, InstanceChanges.run cs s) ∧
  InstanceChanges.hasQuorum (Int 3) 1 (final (InstanceChanges.pop 3 s)) =
    (Ok false, final (InstanceChanges.pop 3 s)).
Proof.
  intros a s cs.
  assert (InstanceChanges.Pop 3 ∉ cs) as Hcs.
  { subst cs. rewrite !not_elem_of_cons. repeat split; try discriminate.
    apply not_elem_of_nil. }
  split; [split; [reflexivity|split; [exact Hcs|reflexivity]]|].
  destruct (InstanceChanges_hasQuorum_until_pop s cs (Int 3) 3 1) as [Hkeep Hpop];
    [reflexivity|].
  split; [apply Hkeep; [exact Hcs|reflexivity]|exact Hpop].
Defined.

(** ** What a message is filed by *)

(** X11: a PREPARE or COMMIT is filed by view number and sequence number
    alone.  Two messages that agree on both are treated as one by every
    method, whatever else they carry, so votes for them count towards
    one quorum: with [f = 1] a vote for each from two voters, on a key
    without a record, is a PREPARE quorum for both. *)
Theorem Prepares_Commits_filed_by_view_and_seq (x y : string) (f : Z) :
  (∀ (s : Prepares.t) (m m' : Prepare),
     viewNo m = viewNo m' → ppSeqNo m = ppSeqNo m' →
     Prepares.addVote m x s = Prepares.addVote m' x s ∧
     Prepares.hasPrepare m s = Prepares.hasPrepare m' s ∧
     Prepares.hasPrepareFrom m x s = Prepares.hasPrepareFrom m' x s ∧
     Prepares.hasQuorum m f s = Prepares.hasQuorum m' f s ∧
     (s !! (viewNo m, ppSeqNo m) = None → x ≠ y →
      let s' := final (Prepares.addVote m' y (final (Prepares.addVote m x s))) in
      Prepares.hasQuorum m 1 s' = (Ok true, s') ∧
      Prepares.hasQuorum m' 1 s' = (Ok true, s'))) ∧
  (∀ (s : Commits.t) (m m' : Commit),
     viewNo m = viewNo m' → ppSeqNo m = ppSeqNo m' →
     Commits.addVote m x s = Commits.addVote m' x s ∧
     Commits.hasCommit m s = Commits.hasCommit m' s ∧
     Commits.hasCommitFrom m x s = Commits.hasCommitFrom m' x s ∧
     Commits.hasQuorum m f s = Commits.hasQuorum m' f s).
Proof.
  split; intros s m m' Hv Hp.
  - unfold Prepares.addVote, Prepares.hasPrepare, Prepares.hasPrepareFrom,
      Prepares.hasQuorum.
    rewrite !(addMsg_ok m _ (viewNo m, ppSeqNo m) (mkThreePhaseVotes ∅)),
      !(addMsg_ok m' _ (viewNo m, ppSeqNo m) (mkThreePhaseVotes ∅)),
      !(hasMsg_run _ (viewNo m, ppSeqNo m)),
      !(hasVote_run _ _ (viewNo m, ppSeqNo m)),
      !(hasEnoughVotes_run _ _ (viewNo m, ppSeqNo m))
      by (done || cbn; by rewrite Hv, Hp).
    do 4 (split; [done|]). intros Hs Hne. cbv zeta. cbn [final snd].
    rewrite ?(addMsg_ok m' _ (viewNo m, ppSeqNo m) (mkThreePhaseVotes ∅))
      by (done || cbn; by rewrite Hv, Hp).
    cbn [final snd].
    rewrite ?(hasEnoughVotes_run _ _ (viewNo m, ppSeqNo m))
      by (done || cbn; by rewrite Hv, Hp).
    rewrite !lookup_insert_eq, Hs. cbn.
    assert (size ({[y]} ∪ ({[x]} ∪ ∅) : gset string) = 2%nat) as ->; [|done].
    rewrite (right_id_L ∅ (∪)), size_union by set_solver.
    by rewrite !size_singleton.
  - unfold Commits.addVote, Commits.hasCommit, Commits.hasCommitFrom,
      Commits.hasQuorum.
    by rewrite !(addMsg_ok m _ (viewNo m, ppSeqNo m) (mkThreePhaseVotes ∅)),
      !(addMsg_ok m' _ (viewNo m, ppSeqNo m) (mkThreePhaseVotes ∅)),
      !(hasMsg_run _ (viewNo m, ppSeqNo m)),
      !(hasVote_run _ _ (viewNo m, ppSeqNo m)),
      !(hasEnoughVotes_run _ _ (viewNo m, ppSeqNo m))
      by (done || cbn; by rewrite Hv, Hp).
Qed.

(** X11 at two PREPAREs for (view 1, seq 10) with the digests d1 and d2,
    the first voted by B and the second by C. *)
Lemma Prepares_Commits_filed_by_view_and_seq_witness :
  let m := mkPrepare 1 10 "d1" in
  let m' := mkPrepare 1 10 "d2" in
  let s' := final (Prepares.addVote m' "C" (final (Prepares.addVote m "B" ∅))) in
  (viewNo m = viewNo m' ∧ ppSeqNo m = ppSeqNo m' ∧
   (∅ : Prepares.t) !! (viewNo m, ppSeqNo m) = None ∧ "B" ≠ "C") ∧
  Prepares.hasQuorum m 1 s' = (Ok true, s') ∧
  Prepares.hasQuorum m' 1 s' = (Ok true, s').
Proof.
  intros m m' s'. split; [repeat split; done|].
  apply (Prepares_Commits_filed_by_view_and_seq "B" "C" 1); done.
Defined.

(** ** The base class on its own *)

(** X12: on [TrackedMsgs] itself, where [getKey] and [newVoteMsg] are
    left unimplemented, every method raises [NotImplementedError] at its
    first step and files nothing. *)
Theorem TrackedMsgs_abstract_unusable {Msg Key Rec : Type} `{Countable Key}
    `{HasVoters Rec} (m : Msg) (x : string) (c : Z) (s : gmap Key Rec) :
  addMsg (TrackedMsgs0 := TrackedMsgs_abstract) m x s =
    (Raise NotImplementedError, s) ∧
  hasMsg (TrackedMsgs0 := TrackedMsgs_abstract) m s =
    (Raise NotImplementedError, s) ∧
  hasVote (TrackedMsgs0 := TrackedMsgs_abstract) m x s =
    (Raise NotImplementedError, s) ∧
  hasEnoughVotes (TrackedMsgs0 := TrackedMsgs_abstract) m c s =
    (Raise NotImplementedError, s).
Proof.
  split; [by apply addMsg_getKey_raise|].
  unfold hasMsg, hasVote, hasEnoughVotes, bind, lift. by cbn.
Qed.

(** ** The votes of a run *)
Section TrackedMsgs_records.
Context {Msg Key Rec : Type} `{Countable Key} `{HasVoters Rec}.
Context `{!TrackedMsgs Msg Key Rec}.
Implicit Types (s : gmap Key Rec) (m : Msg) (k : Key) (r : Rec) (x y : string).

Lemma addMsg_is_Some m x k r0 k' s :
  getKey m = Ok k → newVoteMsg m = Ok r0 →
  is_Some (final (addMsg m x s) !! k') ↔ k = k' ∨ is_Some (s !! k').
Proof.
  intros Hk Hr0. rewrite (addMsg_ok _ _ k r0) by done. cbn [final snd].
  destruct (decide (k = k')) as [->|Hne].
  - rewrite lookup_insert_eq. split; eauto.
  - rewrite lookup_insert_ne by done. split; [eauto|]. by intros [?|?].
Qed.

Lemma addMsg_elem_of_voters_at m x k r0 k' y s :
  getKey m = Ok k → newVoteMsg m = Ok r0 → voters r0 = ∅ →
  y ∈ voters_at k' (final (addMsg m x s)) ↔
  (k = k' ∧ x = y) ∨ y ∈ voters_at k' s.
Proof.
  intros Hk Hr0 Hv0. destruct (decide (k = k')) as [->|Hne].
  - rewrite (addMsg_voters_at _ _ k' r0) by done. set_solver.
  - rewrite (addMsg_voters_at_other _ _ k) by done. split; [eauto|].
    by intros [[? _]|?].
Qed.

Lemma hasMsg_true_iff m k s :
  getKey m = Ok k → hasMsg m s = (Ok true, s) ↔ is_Some (s !! k).
Proof.
  intros Hk. rewrite (hasMsg_run _ k) by done. split.
  - intros [= Hb]. by apply bool_decide_eq_true in Hb.
  - intros Hs. by rewrite bool_decide_eq_true_2.
Qed.

Lemma hasVote_true_iff m x k s :
  getKey m = Ok k → hasVote m x s = (Ok true, s) ↔ x ∈ voters_at k s.
Proof.
  intros Hk. rewrite (hasVote_voters_at _ _ k) by done. split.
  - intros [= Hb]. by apply bool_decide_eq_true in Hb.
  - intros Hs. by rewrite bool_decide_eq_true_2.
Qed.
End TrackedMsgs_records.

Lemma voters_at_empty {Key Rec : Type} `{Countable Key} `{HasVoters Rec}
    (k : Key) (x : string) :
  x ∉ voters_at k (∅ : gmap Key Rec).
Proof. unfold voters_at. rewrite lookup_empty. set_solver. Qed.

Lemma Prepares_run_votes
    (cs : list Prepares.call) (s : Prepares.t) (k : Z * Z) (x : string) :
  x ∈ voters_at k (Prepares.run cs s) ↔
  x ∈ voters_at k s ∨
  ∃ m, Prepares.AddVote m x ∈ cs ∧ (viewNo m, ppSeqNo m) = k.
Proof.
  induction cs as [|c cs IH] in s |- *.
  - cbn. split; [eauto|]. intros [?|(m & Hm & _)]; [done|]. by apply elem_of_nil in Hm.
  - change (Prepares.run (c :: cs) s) with (Prepares.run cs (Prepares.exec s c)).
    rewrite IH. setoid_rewrite elem_of_cons.
    destruct c as [m0 x0|m0|m0 x0|m0 n|m0 f]; cbn [Prepares.exec].
    + unfold Prepares.addVote.
      rewrite (addMsg_elem_of_voters_at m0 x0 (viewNo m0, ppSeqNo m0)
                 (mkThreePhaseVotes ∅)) by done.
      split.
      * intros [[[<- <-]|?]|(m & Hm & Hk)]; [|eauto|eauto].
        right. exists m0. eauto.
      * intros [?|(m & [[= <- <-]|Hm] & Hk)]; eauto.
    + unfold Prepares.hasPrepare. rewrite hasMsg_final.
      split; (intros [?|(m & Hm & Hk)]; [eauto|]);
        [eauto|destruct Hm as [?|?]; [done|eauto]].
    + unfold Prepares.hasPrepareFrom. rewrite hasVote_final.
      split; (intros [?|(m & Hm & Hk)]; [eauto|]);
        [eauto|destruct Hm as [?|?]; [done|eauto]].
    + rewrite hasEnoughVotes_final.
      split; (intros [?|(m & Hm & Hk)]; [eauto|]);
        [eauto|destruct Hm as [?|?]; [done|eauto]].
    + unfold Prepares.hasQuorum. rewrite hasEnoughVotes_final.
      split; (intros [?|(m & Hm & Hk)]; [eauto|]);
        [eauto|destruct Hm as [?|?]; [done|eauto]].
Qed.

Lemma Prepares_run_records
    (cs : list Prepares.call) (s : Prepares.t) (k : Z * Z) :
  is_Some (Prepares.run cs s !! k) ↔
  is_Some (s !! k) ∨
  ∃ m x, Prepares.AddVote m x ∈ cs ∧ (viewNo m, ppSeqNo m) = k.
Proof.
  induction cs as [|c cs IH] in s |- *.
  - cbn. split; [eauto|]. intros [?|(m & x & Hm & _)]; [done|].
    by apply elem_of_nil in Hm.
  - change (Prepares.run (c :: cs) s) with (Prepares.run cs (Prepares.exec s c)).
    rewrite IH. setoid_rewrite elem_of_cons.
    destruct c as [m0 x0|m0|m0 x0|m0 n|m0 f]; cbn [Prepares.exec].
    + unfold Prepares.addVote.
      rewrite (addMsg_is_Some m0 x0 (viewNo m0, ppSeqNo m0)
                 (mkThreePhaseVotes ∅)) by done.
      split.
      * intros [[<-|?]|(m & x & Hm & Hk)]; [|eauto|eauto 6].
        right. exists m0, x0. eauto.
      * intros [?|(m & x & [[= <- <-]|Hm] & Hk)]; eauto 6.
    + unfold Prepares.hasPrepare. rewrite hasMsg_final.
      split; (intros [?|(m & x & Hm & Hk)]; [eauto|]);
        [eauto 6|destruct Hm as [?|?]; [done|eauto 6]].
    + unfold Prepares.hasPrepareFrom. rewrite hasVote_final.
      split; (intros [?|(m & x & Hm & Hk)]; [eauto|]);
        [eauto 6|destruct Hm as [?|?]; [done|eauto 6]].
    + rewrite hasEnoughVotes_final.
      split; (intros [?|(m & x & Hm & Hk)]; [eauto|]);
        [eauto 6|destruct Hm as [?|?]; [done|eauto 6]].
    + unfold Prepares.hasQuorum. rewrite hasEnoughVotes_final.
      split; (intros [?|(m & x & Hm & Hk)]; [eauto|]);
        [eauto 6|destruct Hm as [?|?]; [done|eauto 6]].
Qed.

Lemma Commits_run_votes
    (cs : list Commits.call) (s : Commits.t) (k : Z * Z) (x : string) :
  x ∈ voters_at k (Commits.run cs s) ↔
  x ∈ voters_at k s ∨
  ∃ m, Commits.AddVote m x ∈ cs ∧ (viewNo m, ppSeqNo m) = k.
Proof.
  induction cs as [|c cs IH] in s |- *.
  - cbn. split; [eauto|]. intros [?|(m & Hm & _)]; [done|]. by apply elem_of_nil in Hm.
  - change (Commits.run (c :: cs) s) with (Commits.run cs (Commits.exec s c)).
    rewrite IH. setoid_rewrite elem_of_cons.
    destruct c as [m0 x0|m0|m0 x0|m0 n|m0 f]; cbn [Commits.exec].
    + unfold Commits.addVote.
      rewrite (addMsg_elem_of_voters_at m0 x0 (viewNo m0, ppSeqNo m0)
                 (mkThreePhaseVotes ∅)) by done.
      split.
      * intros [[[<- <-]|?]|(m & Hm & Hk)]; [|eauto|eauto].
        right. exists m0. eauto.
      * intros [?|(m & [[= <- <-]|Hm] & Hk)]; eauto.
    + unfold Commits.hasCommit. rewrite hasMsg_final.
      split; (intros [?|(m & Hm & Hk)]; [eauto|]);
        [eauto|destruct Hm as [?|?]; [done|eauto]].
    + unfold Commits.hasCommitFrom. rewrite hasVote_final.
      split; (intros [?|(m & Hm & Hk)]; [eauto|]);
        [eauto|destruct Hm as [?|?]; [done|eauto]].
    + rewrite hasEnoughVotes_final.
      split; (intros [?|(m & Hm & Hk)]; [eauto|]);
        [eauto|destruct Hm as [?|?]; [done|eauto]].
    + unfold Commits.hasQuorum. rewrite hasEnoughVotes_final.
      split; (intros [?|(m & Hm & Hk)]; [eauto|]);
        [eauto|destruct Hm as [?|?]; [done|eauto]].
Qed.

Lemma Commits_run_records
    (cs : list Commits.call) (s : Commits.t) (k : Z * Z) :
  is_Some (Commits.run cs s !! k) ↔
  is_Some (s !! k) ∨
  ∃ m x, Commits.AddVote m x ∈ cs ∧ (viewNo m, ppSeqNo m) = k.
Proof.
  induction cs as [|c cs IH] in s |- *.
  - cbn. split; [eauto|]. intros [?|(m & x & Hm & _)]; [done|].
    by apply elem_of_nil in Hm.
  - change (Commits.run (c :: cs) s) with (Commits.run cs (Commits.exec s c)).
    rewrite IH. setoid_rewrite elem_of_cons.
    destruct c as [m0 x0|m0|m0 x0|m0 n|m0 f]; cbn [Commits.exec].
    + unfold Commits.addVote.
      rewrite (addMsg_is_Some m0 x0 (viewNo m0, ppSeqNo m0)
                 (mkThreePhaseVotes ∅)) by done.
      split.
      * intros [[<-|?]|(m & x & Hm & Hk)]; [|eauto|eauto 6].
        right. exists m0, x0. eauto.
      * intros [?|(m & x & [[= <- <-]|Hm] & Hk)]; eauto 6.
    + unfold Commits.hasCommit. rewrite hasMsg_final.
      split; (intros [?|(m & x & Hm & Hk)]; [eauto|]);
        [eauto 6|destruct Hm as [?|?]; [done|eauto 6]].
    + unfold Commits.hasCommitFrom. rewrite hasVote_final.
      split; (intros [?|(m & x & Hm & Hk)]; [eauto|]);
        [eauto 6|destruct Hm as [?|?]; [done|eauto 6]].
    + rewrite hasEnoughVotes_final.
      split; (intros [?|(m & x & Hm & Hk)]; [eauto|]);
        [eauto 6|destruct Hm as [?|?]; [done|eauto 6]].
    + unfold Commits.hasQuorum. rewrite hasEnoughVotes_final.
      split; (intros [?|(m & x & Hm & Hk)]; [eauto|]);
        [eauto 6|destruct Hm as [?|?]; [done|eauto 6]].
Qed.

(** X13: a [Prepares] or [Commits] tracker created empty holds exactly
    the votes it was given.  After any sequence of calls, the vote query
    for a message and a voter is true exactly when some [addVote] of the
    sequence was from that voter for a message of the same view and
    sequence number, and the record query is true exactly when some
    [addVote] of the sequence was for such a message. *)
Theorem Prepares_Commits_votes_are_the_calls (x : string) :
  (∀ (cs : list Prepares.call) (m : Prepare),
     let s := Prepares.run cs ∅ in
     (Prepares.hasPrepareFrom m x s = (Ok true, s) ↔
      ∃ m', Prepares.AddVote m' x ∈ cs ∧
            (viewNo m', ppSeqNo m') = (viewNo m, ppSeqNo m)) ∧
     (Prepares.hasPrepare m s = (Ok true, s) ↔
      ∃ m' y, Prepares.AddVote m' y ∈ cs ∧
              (viewNo m', ppSeqNo m') = (viewNo m, ppSeqNo m))) ∧
  (∀ (cs : list Commits.call) (m : Commit),
     let s := Commits.run cs ∅ in
     (Commits.hasCommitFrom m x s = (Ok true, s) ↔
      ∃ m', Commits.AddVote m' x ∈ cs ∧
            (viewNo m', ppSeqNo m') = (viewNo m, ppSeqNo m)) ∧
     (Commits.hasCommit m s = (Ok true, s) ↔
      ∃ m' y, Commits.AddVote m' y ∈ cs ∧
              (viewNo m', ppSeqNo m') = (viewNo m, ppSeqNo m))).
Proof.
  split; intros cs m s; subst s; split.
  - unfold Prepares.hasPrepareFrom.
    rewrite (hasVote_true_iff _ _ (viewNo m, ppSeqNo m)), Prepares_run_votes by done.
    split; [|eauto]. intros [Hx|?]; [|done]. by apply voters_at_empty in Hx.
  - unfold Prepares.hasPrepare.
    rewrite (hasMsg_true_iff _ (viewNo m, ppSeqNo m)), Prepares_run_records by done.
    split; [|eauto]. intros [[r Hr]|?]; [|done]. by rewrite lookup_empty in Hr.
  - unfold Commits.hasCommitFrom.
    rewrite (hasVote_true_iff _ _ (viewNo m, ppSeqNo m)), Commits_run_votes by done.
    split; [|eauto]. intros [Hx|?]; [|done]. by apply voters_at_empty in Hx.
  - unfold Commits.hasCommit.
    rewrite (hasMsg_true_iff _ (viewNo m, ppSeqNo m)), Commits_run_records by done.
    split; [|eauto]. intros [[r Hr]|?]; [|done]. by rewrite lookup_empty in Hr.
Qed.

(** X13 at a run with votes of B and C for PREPARE(view 1, seq 10) and a
    vote of A for (view 1, seq 11). *)
Lemma Prepares_Commits_votes_are_the_calls_witness :
  let m := mkPrepare 1 10 "d" in
  let m' := mkPrepare 1 11 "e" in
  let cs := [Prepares.AddVote m "B"; Prepares.AddVote m' "A";
             Prepares.HasQuorum m 1; Prepares.AddVote m "C"] in
  let s := Prepares.run cs ∅ in
  Prepares.hasPrepareFrom m' "A" s = (Ok true, s) ∧
  ∃ m0, Prepares.AddVote m0 "A" ∈ cs ∧
        (viewNo m0, ppSeqNo m0) = (viewNo m', ppSeqNo m').
Proof.
  intros m m' cs s. split; [reflexivity|].
  apply (Prepares_Commits_votes_are_the_calls "A"). reflexivity.
Defined.

(** ** The request validation plugin *)
Section AuctionReqValidationPlugin_facts.
Variables (TXN_TYPE DATA : string) (format_value : pyval → string).
Implicit Types (operation : gmap string pyval) (self : AuctionReqValidationPlugin).
Implicit Types (data : gmap string pyval) (v : pyval) (t : string).

Local Abbreviation counted self :=
  (Verified, mkAuctionReqValidationPlugin (count self + 1)).

Lemma py_in_true v (l : list string) :
  py_in v l = true ↔ ∃ t, v = PStr t ∧ t ∈ l.
Proof.
  destruct v; simpl; try (split; [done|by intros (? & ? & _)]).
  rewrite bool_decide_eq_true. split; [eauto|]. by intros (t & [= ->] & ?).
Qed.

Lemma py_eq_str_true v t : py_eq_str v t = true ↔ v = PStr t.
Proof.
  destruct v; simpl; try done.
  rewrite bool_decide_eq_true. split; [by intros ->|by intros [= ->]].
Qed.

Lemma dict_get_Some data (key : string) v :
  data !! key = Some v → dict_get data key = v.
Proof. intros Hv. unfold dict_get. by rewrite Hv. Qed.

Lemma dict_get_not_None data (key : string) v :
  dict_get data key = v → v ≠ PNone → data !! key = Some v.
Proof. unfold dict_get. destruct (data !! key); simpl; congruence. Qed.

Lemma positive_number_iff v :
  isinstance_int_float v = true ∧ gt_zero v = true ↔
  v = PBool true ∨ (∃ z, v = PInt z ∧ 0 < z) ∨
  (∃ f, v = PFloat f ∧ PrimFloat.ltb PrimFloat.zero f = true).
Proof.
  split.
  - intros [Hnum Hpos]. destruct v as [|b|z|f| | |]; simplify_eq/=.
    + by left.
    + right; left. exists z. split; [done|]. by apply Z.ltb_lt.
    + right; right. by exists f.
  - intros [->|[(z & -> & Hz)|(f & -> & Hf)]]; simpl; split; try done.
    by apply Z.ltb_lt.
Qed.

(** The checks of [verify], one after another. *)
Lemma verify_cases operation self :
  verify TXN_TYPE DATA format_value operation self =
    let typ := dict_get operation TXN_TYPE in
    if py_in typ validTxnTypes then
      if py_in typ [AUCTION_START; AUCTION_END; PLACE_BID] then
        match dict_get operation DATA with
        | PDict data =>
            if in_and_truthy ID data then
              if py_eq_str typ PLACE_BID then
                if isinstance_int_float (dict_get data AMOUNT)
                   && gt_zero (dict_get data AMOUNT)
                then counted self
                else (AssertionError
                        (AMOUNT ++
                           " must be present and should be a number greater than 0"),
                      self)
              else counted self
            else (AssertionError "No id provided for auction", self)
        | _ => (AssertionError
                  (DATA ++ " attribute is missing or not in proper format"), self)
        end
      else counted self
    else (AssertionError
            (format_value (dict_get operation TXN_TYPE) ++
               " is not a valid transaction type, must be one of "
               ++ String.concat ", " validTxnTypes), self).
Proof.
  unfold verify, then_, assert_, pass, count_incr. cbv zeta.
  destruct (py_in (dict_get operation TXN_TYPE) validTxnTypes); [|done].
  destruct (py_in (dict_get operation TXN_TYPE) _); [|done].
  destruct (dict_get operation DATA) as [| | | | | |data]; try done.
  destruct (in_and_truthy ID data); [|done].
  destruct (py_eq_str (dict_get operation TXN_TYPE) PLACE_BID); [|done].
  by destruct (isinstance_int_float _ && gt_zero _).
Qed.

(** X14: [verify] lets a request through exactly when its type is one of
    the four transaction types and, unless it is [GET_BAL], its data is
    a dictionary with an [id] that is true as a Python value and, for
    [PLACE_BID], with an [amount] that is [True], an integer above 0 or
    a float above 0. *)
Theorem verify_accepts_iff operation self :
  (∃ self', verify TXN_TYPE DATA format_value operation self = (Verified, self')) ↔
  ∃ t, operation !! TXN_TYPE = Some (PStr t) ∧
       (t = GET_BAL ∨
        (t = AUCTION_START ∨ t = AUCTION_END ∨ t = PLACE_BID) ∧
        ∃ data idv,
          operation !! DATA = Some (PDict data) ∧
          data !! ID = Some idv ∧ truthy idv = true ∧
          (t = PLACE_BID →
           ∃ a, data !! AMOUNT = Some a ∧
                (a = PBool true ∨ (∃ z, a = PInt z ∧ 0 < z) ∨
                 (∃ f, a = PFloat f ∧ PrimFloat.ltb PrimFloat.zero f = true)))).
Proof.
  setoid_rewrite <- positive_number_iff.
  rewrite verify_cases. cbv zeta. split.
  - intros [self' Hrun].
    destruct (py_in (dict_get operation TXN_TYPE) validTxnTypes) eqn:Hvalid; [|done].
    apply py_in_true in Hvalid as (t & Htyp & Ht).
    assert (operation !! TXN_TYPE = Some (PStr t)) as Hop
      by (by apply dict_get_not_None).
    exists t. split; [done|]. rewrite Htyp in Hrun.
    destruct (py_in (PStr t) [AUCTION_START; AUCTION_END; PLACE_BID]) eqn:Hthree.
    + right. apply py_in_true in Hthree as (t' & [= <-] & Ht').
      split; [set_solver|].
      destruct (dict_get operation DATA) as [| | | | | |data] eqn:Hdata; try done.
      apply dict_get_not_None in Hdata; [|done].
      destruct (in_and_truthy ID data) eqn:Hidv; [|done].
      unfold in_and_truthy in Hidv.
      destruct (data !! ID) as [idv|] eqn:Hid; [|done].
      exists data, idv. do 3 (split; [done|]). intros ->.
      rewrite (proj2 (py_eq_str_true _ _) eq_refl) in Hrun.
      destruct (isinstance_int_float (dict_get data AMOUNT)) eqn:Hnum; [|done].
      destruct (gt_zero (dict_get data AMOUNT)) eqn:Hpos; [|done].
      exists (dict_get data AMOUNT). split; [|done].
      apply dict_get_not_None; [done|]. by intros Heq; rewrite Heq in Hnum.
    + left. apply not_true_iff_false in Hthree. rewrite py_in_true in Hthree.
      unfold validTxnTypes in Ht.
      rewrite !elem_of_cons, elem_of_nil in Ht.
      destruct Ht as [?|[?|[?|[?|[]]]]]; [| | |done];
        exfalso; apply Hthree; exists t; split; [done|set_solver| |set_solver| |set_solver];
        done.
  - intros (t & Hop & Hok). rewrite (dict_get_Some _ _ _ Hop).
    destruct Hok as [->|[Ht (data & idv & Hdata & Hid & Hidv & Hamount)]].
    + eexists. reflexivity.
    + rewrite (dict_get_Some _ _ _ Hdata).
      assert (py_in (PStr t) validTxnTypes = true) as ->
        by (apply py_in_true; exists t; split; [done|set_solver]).
      assert (py_in (PStr t) [AUCTION_START; AUCTION_END; PLACE_BID] = true) as ->
        by (apply py_in_true; exists t; split; [done|set_solver]).
      unfold in_and_truthy. rewrite Hid, Hidv.
      destruct (py_eq_str (PStr t) PLACE_BID) eqn:Hbid; [|by eexists].
      apply py_eq_str_true in Hbid as [= ->].
      destruct Hamount as (a & Ha & Hnum & Hpos); [done|].
      rewrite (dict_get_Some _ _ _ Ha), Hnum, Hpos. by eexists.
Qed.

(** X15: a request that passes adds exactly one to [count]; a request
    that fails leaves the plugin as it was. *)
Theorem verify_counts_passed operation self :
  match verify TXN_TYPE DATA format_value operation self with
  | (Verified, self') => count self' = count self + 1
  | (AssertionError _, self') => self' = self
  end.
Proof.
  rewrite verify_cases. cbv zeta.
  repeat (match goal with
          | |- context [if ?b then _ else _] => destruct b
          | |- context [match ?v with PNone => _ | _ => _ end] => destruct v
          end; try done).
Qed.

(** X16: [verify] reads the type and data entries of the request and the
    [id] and [amount] entries of the data, and nothing else: setting any
    other key of the request, or any other key of its data, changes
    neither the verdict nor the message. *)
Theorem verify_reads_four_entries operation self (key : string) v :
  TXN_TYPE ≠ DATA →
  (key ≠ TXN_TYPE → key ≠ DATA →
   verify TXN_TYPE DATA format_value (<[key := v]> operation) self =
     verify TXN_TYPE DATA format_value operation self) ∧
  (∀ data, operation !! DATA = Some (PDict data) → key ≠ ID → key ≠ AMOUNT →
     verify TXN_TYPE DATA format_value
       (<[DATA := PDict (<[key := v]> data)]> operation) self =
       verify TXN_TYPE DATA format_value operation self).
Proof.
  intros Hne. split.
  - intros Hk1 Hk2. rewrite !verify_cases. unfold dict_get.
    by rewrite !lookup_insert_ne.
  - intros data Hdata Hk1 Hk2. rewrite !verify_cases. unfold dict_get, in_and_truthy.
    rewrite lookup_insert_ne, lookup_insert_eq, Hdata by done. cbn [from_option id].
    by rewrite !lookup_insert_ne.
Qed.

(** X17: an [id] that is there but false as a Python value counts as
    missing.  For the three auction types, data without an [id], or with
    an [id] of [None], [False], 0, 0.0, -0.0, the empty string, the
    empty list or the empty dictionary, fails with the message of a
    missing id and leaves the plugin as it was. *)
Theorem verify_rejects_false_id operation self t data :
  operation !! TXN_TYPE = Some (PStr t) →
  t ∈ [AUCTION_START; AUCTION_END; PLACE_BID] →
  operation !! DATA = Some (PDict data) →
  data !! ID = None ∨
  (∃ idv, data !! ID = Some idv ∧
          idv ∈ [PNone; PBool false; PInt 0; PFloat PrimFloat.zero;
                 PFloat PrimFloat.neg_zero; PStr ""; PList []; PDict ∅]) →
  verify TXN_TYPE DATA format_value operation self =
    (AssertionError "No id provided for auction", self).
Proof.
  intros Hop Ht Hdata Hid. rewrite verify_cases. cbv zeta.
  rewrite (dict_get_Some _ _ _ Hop), (dict_get_Some _ _ _ Hdata).
  assert (py_in (PStr t) validTxnTypes = true) as ->
    by (apply py_in_true; exists t; split; [done|set_solver]).
  assert (py_in (PStr t) [AUCTION_START; AUCTION_END; PLACE_BID] = true) as ->
    by (apply py_in_true; eauto).
  assert (in_and_truthy ID data = false) as ->; [|done].
  unfold in_and_truthy. destruct Hid as [->|(idv & -> & Hidv)]; [done|].
  rewrite !elem_of_cons, elem_of_nil in Hidv.
  destruct Hidv as [->|[->|[->|[->|[->|[->|[->|[->|[]]]]]]]]]; reflexivity.
Qed.
End AuctionReqValidationPlugin_facts.

(** X14 at a bid of 5 on auction 7, with the keys "type" and "data". *)
Lemma verify_accepts_iff_witness :
  let data : gmap string pyval := {[ ID := PInt 7; AMOUNT := PInt 5 ]} in
  let operation : gmap string pyval :=
    {[ "type"%string := PStr PLACE_BID; "data"%string := PDict data ]} in
  ∃ self', verify "type" "data" (λ _, ""%string) operation
             AuctionReqValidationPlugin_init = (Verified, self').
Proof.
  intros data operation.
  apply (verify_accepts_iff "type" "data" (λ _, ""%string) operation
           AuctionReqValidationPlugin_init).
  exists PLACE_BID. split; [reflexivity|]. right. split; [by right; right|].
  exists data, (PInt 7). split; [reflexivity|]. split; [reflexivity|].
  split; [reflexivity|]. intros _. exists (PInt 5). split; [reflexivity|].
  right; left. exists 5. split; [reflexivity|lia].
Defined.

(** X16 at a request with a further key and data with a further key. *)
Lemma verify_reads_four_entries_witness :
  let data : gmap string pyval := {[ ID := PInt 7; AMOUNT := PInt 5 ]} in
  let operation : gmap string pyval :=
    {[ "type"%string := PStr PLACE_BID; "data"%string := PDict data ]} in
  ("type" ≠ "data" ∧ "note" ≠ "type" ∧ "note" ≠ "data" ∧
   operation !! "data"%string = Some (PDict data) ∧ "note" ≠ ID ∧ "note" ≠ AMOUNT) ∧
  verify "type" "data" (λ _, ""%string) (<["note"%string := PNone]> operation)
    AuctionReqValidationPlugin_init =
  verify "type" "data" (λ _, ""%string) operation AuctionReqValidationPlugin_init ∧
  verify "type" "data" (λ _, ""%string)
    (<["data"%string := PDict (<["note"%string := PNone]> data)]> operation)
    AuctionReqValidationPlugin_init =
  verify "type" "data" (λ _, ""%string) operation AuctionReqValidationPlugin_init.
Proof.
  intros data operation. split; [repeat split; done|].
  destruct (verify_reads_four_entries "type" "data" (λ _, ""%string) operation
              AuctionReqValidationPlugin_init "note" PNone) as [Hop Hdata]; [done|].
  split; [by apply Hop|by apply Hdata].
Defined.

(** X17 at the end of an auction whose id is 0. *)
Lemma verify_rejects_false_id_witness :
  let data : gmap string pyval := {[ ID := PInt 0 ]} in
  let operation : gmap string pyval :=
    {[ "type"%string := PStr AUCTION_END; "data"%string := PDict data ]} in
  (operation !! "type"%string = Some (PStr AUCTION_END) ∧
   AUCTION_END ∈ [AUCTION_START; AUCTION_END; PLACE_BID] ∧
   operation !! "data"%string = Some (PDict data) ∧
   data !! ID = Some (PInt 0)) ∧
  verify "type" "data" (λ _, ""%string) operation AuctionReqValidationPlugin_init =
    (AssertionError "No id provided for auction", AuctionReqValidationPlugin_init).
Proof.
  intros data operation.
  assert (AUCTION_END ∈ [AUCTION_START; AUCTION_END; PLACE_BID]) as Hin
    by (right; left).
  split; [repeat split; done|].
  apply (verify_rejects_false_id "type" "data" (λ _, ""%string) operation
           AuctionReqValidationPlugin_init AUCTION_END data); [done..|].
  right. exists (PInt 0). split; [done|]. right; right; left.
Defined.
